(** * thin-gifler: the frame scheduler, the disposal hook and the decoder

    A shallow embedding of [src/thin-gifler.js].

    - JavaScript numbers that count things (frame index, loop counters,
      canvas dimensions, disposal codes) are [nat]: they start at 0 and the
      code only ever adds 1 to them or compares them.  Times, delays and
      byte values are [Z].
    - [new Date().valueOf()] is an input: every function that reads the
      clock takes the readings it will see, one per read, in order.
    - [setTimeout] and [requestAnimationFrame] only enqueue a callback; the
      browser's event loop is the [perform] function below.
    - [this.onFrame] is a parameter of the development.  A hook owns its
      own state (the canvas, [this.disposeFrame], the frame buffers); hooks
      that call back into [start]/[stop]/[reset] are outside the model. *)

From Stdlib Require Import ZArith Lia.
From stdpp Require Import base list gmap.

(** ** Frames and the decoded-image reader *)

Module Frame.
Record t := mk {
  x : Z; y : Z; width : nat; height : nat;
  delay : Z;          (* hundredths of a second *)
  disposal : nat;
  pixels : list Z     (* Uint8ClampedArray *)
}.
End Frame.

(** The part of omggif's [GifReader] that the source calls.  A method that
    throws returns [None].  [decodeAndBlitFrameRGBA] can only store into the
    typed array it is handed, so it is given as the list of stores
    (index, value) it performs on that array. *)
Module Reader.
Record t := mk {
  width : nat; height : nat;
  numFrames : Z;
  loopCount : nat;
  frameInfo : Z -> option Frame.t;
  decodeAndBlitFrameRGBA : Z -> list Z -> option (list (nat * Z))
}.
End Reader.

(** ** The Animator object *)

Record Animator := mkAnimator {
  _frames : list Frame.t;
  width : nat;
  height : nat;
  _loopCount : nat;
  _loops : nat;
  _frameIndex : nat;
  _running : bool;
  _lastTime : Z;            (* unset until the first start(); read only while running *)
  _delayCompensation : Z    (* idem *)
}.

Definition set_loops (v : nat) (a : Animator) : Animator :=
  mkAnimator (_frames a) (width a) (height a) (_loopCount a) v (_frameIndex a)
             (_running a) (_lastTime a) (_delayCompensation a).
Definition set_frameIndex (v : nat) (a : Animator) : Animator :=
  mkAnimator (_frames a) (width a) (height a) (_loopCount a) (_loops a) v
             (_running a) (_lastTime a) (_delayCompensation a).
Definition set_running (v : bool) (a : Animator) : Animator :=
  mkAnimator (_frames a) (width a) (height a) (_loopCount a) (_loops a) (_frameIndex a)
             v (_lastTime a) (_delayCompensation a).
Definition set_lastTime (v : Z) (a : Animator) : Animator :=
  mkAnimator (_frames a) (width a) (height a) (_loopCount a) (_loops a) (_frameIndex a)
             (_running a) v (_delayCompensation a).
Definition set_delayCompensation (v : Z) (a : Animator) : Animator :=
  mkAnimator (_frames a) (width a) (height a) (_loopCount a) (_loops a) (_frameIndex a)
             (_running a) (_lastTime a) v.

(** [constructor(_reader, _frames)] *)
Definition new_Animator (_reader : Reader.t) (frames : list Frame.t) : Animator :=
  {| _frames := frames;
     width := Reader.width _reader;
     height := Reader.height _reader;
     _loopCount := Reader.loopCount _reader;
     _loops := 0;
     _frameIndex := 0;
     _running := false;
     _lastTime := 0;
     _delayCompensation := 0 |}.

(** [stop()], [reset()], [running()] *)
Definition stop (a : Animator) : Animator := set_running false a.

Definition reset (a : Animator) : Animator := set_loops 0 (set_frameIndex 0 a).

Definition running (a : Animator) : bool := _running a.

(** [_advanceFrame()] *)
Definition _advanceFrame (a : Animator) : Animator :=
  let a := set_frameIndex (_frameIndex a + 1) a in
  if length (_frames a) <=? _frameIndex a then
    if negb (_loopCount a =? 0) && (_loopCount a =? _loops a) then stop a
    else set_loops (_loops a + 1) (set_frameIndex 0 a)
  else a.

(** ** The animator in its host *)

(** What the animator did, in order. *)
Inductive Event :=
| Rendered (i : nat)          (* onFrame applied to frame i *)
| Computed (actualDelay : Z)  (* a value of the local actualDelay *)
| TimerSet (d : Z)            (* setTimeout(this._nextFrame, d) *)
| PaintRequested.             (* requestAnimationFrame(this._nextFrameRender) *)

(** How a call ended.  [Starved] is not an outcome of the code: the model
    was given fewer clock readings than the code reads. *)
Inductive Completion := Normal | Throws | Starved.

Record World (H : Type) := mkWorld {
  this : Animator;
  hookState : H;
  timers : list Z;        (* pending setTimeout(this._nextFrame, d) *)
  frameRequests : nat;    (* pending requestAnimationFrame(this._nextFrameRender) *)
  log : list Event
}.
Arguments mkWorld {H}.
Arguments this {H}.
Arguments hookState {H}.
Arguments timers {H}.
Arguments frameRequests {H}.
Arguments log {H}.

Section Player.
Context {H : Type}.

(** [this.onFrame]: [None] when it was never assigned; a hook that throws
    returns [None]. *)
Variable onFrame : option (option Frame.t -> nat -> H -> option H).

Definition upd (f : Animator -> Animator) (w : World H) : World H :=
  mkWorld (f (this w)) (hookState w) (timers w) (frameRequests w) (log w).
Definition set_hookState (h : H) (w : World H) : World H :=
  mkWorld (this w) h (timers w) (frameRequests w) (log w).
Definition set_timers (t : list Z) (w : World H) : World H :=
  mkWorld (this w) (hookState w) t (frameRequests w) (log w).
Definition set_frameRequests (n : nat) (w : World H) : World H :=
  mkWorld (this w) (hookState w) (timers w) n (log w).
Definition emit (e : Event) (w : World H) : World H :=
  mkWorld (this w) (hookState w) (timers w) (frameRequests w) (log w ++ [e]).

Definition setTimeout (d : Z) (w : World H) : World H :=
  emit (TimerSet d) (set_timers (timers w ++ [d]) w).
Definition requestAnimationFrame (w : World H) : World H :=
  emit PaintRequested (set_frameRequests (frameRequests w + 1) w).

Definition create (_reader : Reader.t) (frames : list Frame.t) (h : H) : World H :=
  mkWorld (new_Animator _reader frames) h [] 0 [].

(** [start()]; [now] is what [new Date().valueOf()] returns. *)
Definition start (now : Z) (w : World H) : World H :=
  let w := upd (set_lastTime now) w in
  let w := upd (set_delayCompensation 0) w in
  let w := upd (set_running true) w in
  setTimeout 0 w.

(** [_nextFrame()] *)
Definition _nextFrame (w : World H) : World H := requestAnimationFrame w.

(** The [while (this._running)] loop of [_enqueueNextFrame]; one clock
    reading per iteration. *)
Fixpoint enqueueLoop (clock : list Z) (w : World H) : World H * Completion :=
  if negb (_running (this w)) then (w, Normal) else
  match clock with
  | [] => (w, Starved)
  | now :: clock =>
    let frame := _frames (this w) !! _frameIndex (this w) in
    let delta := (now - _lastTime (this w))%Z in
    let w := upd (fun a => set_lastTime (_lastTime a + delta) a) w in
    let w := upd (fun a => set_delayCompensation (_delayCompensation a + delta) a) w in
    match frame with
    | None => (w, Throws)      (* frame.delay of undefined *)
    | Some frame =>
      let frameDelay := (Frame.delay frame * 10)%Z in
      let actualDelay := (frameDelay - _delayCompensation (this w))%Z in
      let w := upd (fun a => set_delayCompensation (_delayCompensation a - frameDelay) a) w in
      let w := emit (Computed actualDelay) w in
      if (actualDelay <? 0)%Z then enqueueLoop clock (upd _advanceFrame w)
      else (setTimeout actualDelay w, Normal)
    end
  end.

(** [_enqueueNextFrame()] *)
Definition _enqueueNextFrame (clock : list Z) (w : World H) : World H * Completion :=
  enqueueLoop clock (upd _advanceFrame w).

(** [_nextFrameRender()] *)
Definition _nextFrameRender (clock : list Z) (w : World H) : World H * Completion :=
  if negb (_running (this w)) then (w, Normal) else
  let frame := _frames (this w) !! _frameIndex (this w) in
  match onFrame with
  | Some ref =>
    let w := emit (Rendered (_frameIndex (this w))) w in
    match ref frame (_frameIndex (this w)) (hookState w) with
    | None => (w, Throws)
    | Some h => _enqueueNextFrame clock (set_hookState h w)
    end
  | None => _enqueueNextFrame clock w
  end.

(** *** The event loop *)

Inductive Action :=
| CallStart (now : Z)            (* the host calls start() *)
| CallStop                       (* the host calls stop() *)
| CallReset                      (* the host calls reset() *)
| TimerFires (i : nat)           (* the i-th pending timeout expires *)
| PaintFires (clock : list Z).   (* the next paint runs one requested callback *)

Definition perform (act : Action) (w : World H) : option (World H) :=
  match act with
  | CallStart now => Some (start now w)
  | CallStop => Some (upd stop w)
  | CallReset => Some (upd reset w)
  | TimerFires i =>
    match timers w !! i with
    | Some _ => Some (_nextFrame (set_timers (delete i (timers w)) w))
    | None => None
    end
  | PaintFires clock =>
    match frameRequests w with
    | 0 => None
    | S n =>
      match _nextFrameRender clock (set_frameRequests n w) with
      | (_, Starved) => None
      | (w', _) => Some w'
      end
    end
  end.

Inductive Reachable : World H -> Prop :=
| reach_create (r : Reader.t) (frames : list Frame.t) (h : H) :
    Reachable (create r frames h)
| reach_perform (w w' : World H) (act : Action) :
    Reachable w -> perform act w = Some w' -> Reachable w'.

(** Started and left alone: each round lets the pending timeout expire and
    the paint callback run; it ends when nothing is pending. *)
Fixpoint playback (clocks : list (list Z)) (w : World H) : option (World H) :=
  match clocks with
  | [] => Some w
  | clock :: clocks =>
    match timers w with
    | [] => Some w
    | _ :: _ =>
      match perform (TimerFires 0) w with
      | Some w1 =>
        match perform (PaintFires clock) w1 with
        | Some w2 => playback clocks w2
        | None => None
        end
      | None => None
      end
    end
  end.

Definition renders (l : list Event) : list nat :=
  omap (fun e => match e with Rendered i => Some i | _ => None end) l.

Definition timeouts (l : list Event) : list Z :=
  omap (fun e => match e with TimerSet d => Some d | _ => None end) l.

Definition computedDelays (l : list Event) : list Z :=
  omap (fun e => match e with Computed d => Some d | _ => None end) l.

End Player.

(** What is left of the animator when the time bookkeeping is forgotten. *)
Definition samePosition (a b : Animator) : Prop :=
  _frames a = _frames b /\ _loopCount a = _loopCount b /\
  _loops a = _loops b /\ _frameIndex a = _frameIndex b /\ _running a = _running b.

(** The measure of the catch-up loop: loops left, then frames left in the
    current pass; and the number of advances it allows. *)
Definition remaining (a : Animator) : nat * nat :=
  (_loopCount a - _loops a, length (_frames a) - _frameIndex a).

Definition lexLt (m m' : nat * nat) : Prop :=
  m.1 < m'.1 \/ (m.1 = m'.1 /\ m.2 < m'.2).

Definition budget (a : Animator) : nat :=
  (_loopCount a - _loops a) * S (length (_frames a)) +
  (length (_frames a) - _frameIndex a).

(** What holds of the position in every state the event loop can reach:
    the loop counter has not passed a non-zero loop count, and the frame
    index is in range unless the loops are used up. *)
Definition positioned (a : Animator) : Prop :=
  (_loopCount a <> 0 -> _loops a <= _loopCount a) /\
  (_frameIndex a < length (_frames a) \/ (_loopCount a <> 0 /\ _loops a = _loopCount a)).

(** [k] passes over frames [0 .. n-1], as the list of rendered indices. *)
Definition passes (k n : nat) : list nat := mjoin (replicate k (seq 0 n)).

(** ** The default hooks installed by [animateInCanvas] *)

(** The canvas built by [createBufferCanvas]: it has the frame's own size,
    and the image data (of the size of the whole GIF) is put on it at
    [(-frame.x, -frame.y)]. *)
Record BufferCanvas := mkBufferCanvas {
  buffer_width : nat;
  buffer_height : nat;
  imageData_width : nat;
  imageData_height : nat;
  imageData_data : list Z;
  put_dx : Z;
  put_dy : Z
}.

(** [createBufferCanvas(frame, width, height)].  [createImageData] throws
    when the width or the height it is given is 0, and [imageData.data.set]
    throws when the source is longer than the image data. *)
Definition createBufferCanvas (frame : Frame.t) (width height : nat) : option BufferCanvas :=
  let size := width * height * 4 in
  if (width =? 0) || (height =? 0) then None
  else if length (Frame.pixels frame) <=? size then
    Some {| buffer_width := Frame.width frame;
            buffer_height := Frame.height frame;
            imageData_width := width;
            imageData_height := height;
            imageData_data :=
              Frame.pixels frame ++ replicate (size - length (Frame.pixels frame)) 0%Z;
            put_dx := - Frame.x frame;
            put_dy := - Frame.y frame |}
  else None.

Section DefaultHooks.
(** The 2D context of the target canvas, through the calls the hooks make
    on it; all of them on the whole canvas rectangle.  The calls are given
    by what they do when they return: a [getImageData], a [drawImage] or an
    [onDrawFrame] that throws ends the hook midway and is not described
    here, so what is stated of these calls is stated of hook calls that
    returned. *)
Variables Canvas ImageData : Type.
Variable clearRect : Canvas -> Canvas.
Variable getImageData : Canvas -> ImageData.
Variable putImageData : ImageData -> Canvas -> Canvas.
Variable drawImage : BufferCanvas -> Z -> Z -> Canvas -> Canvas.
(** [this.onDrawFrame] as the host left it before [animateInCanvas]. *)
Variable onDrawFrame : option (Canvas -> Frame.t -> BufferCanvas -> nat -> Canvas).
(** [this.width], [this.height] *)
Variables gifWidth gifHeight : nat.

(** The closures assigned to [this.disposeFrame]. *)
Inductive Disposer :=
| ClearCanvas                     (* case 2 *)
| RestoreSaved (saved : ImageData). (* case 3 *)

Inductive CanvasOp :=
| DidClearRect
| DidGetImageData
| DidPutImageData (saved : ImageData)
| DidDrawFrame (i : nat).

Record HookState := mkHookState {
  canvas : Canvas;
  disposeFrame : option Disposer;     (* this.disposeFrame *)
  buffers : gmap nat BufferCanvas;    (* frame.buffer of this._frames[i] *)
  ops : list CanvasOp                 (* the context calls made so far *)
}.

Definition callDisposer (d : Disposer) (s : HookState) : HookState :=
  match d with
  | ClearCanvas =>
    mkHookState (clearRect (canvas s)) (disposeFrame s) (buffers s)
                (ops s ++ [DidClearRect])
  | RestoreSaved saved =>
    mkHookState (putImageData saved (canvas s)) (disposeFrame s) (buffers s)
                (ops s ++ [DidPutImageData saved])
  end.

(** The [onDrawFrame] in force after [animateInCanvas]. *)
Definition installedOnDrawFrame : Canvas -> Frame.t -> BufferCanvas -> nat -> Canvas :=
  match onDrawFrame with
  | Some f => f
  | None => fun ctx frame buffer _ => drawImage buffer (Frame.x frame) (Frame.y frame) ctx
  end.

(** The [onFrame] installed by [animateInCanvas]. *)
Definition defaultOnFrame (frame : option Frame.t) (i : nat) (s : HookState)
  : option HookState :=
  match frame with
  | None => None      (* frame.buffer of undefined *)
  | Some frame =>
    (* Lazily create canvas buffer. *)
    match (match buffers s !! i with
           | Some buffer => Some buffer
           | None => createBufferCanvas frame gifWidth gifHeight
           end) with
    | None => None
    | Some buffer =>
      let s := mkHookState (canvas s) (disposeFrame s) (<[i := buffer]> (buffers s)) (ops s) in
      let s := match disposeFrame s with
               | Some d => callDisposer d s
               | None => s
               end in
      let s := match Frame.disposal frame with
               | 2 => mkHookState (canvas s) (Some ClearCanvas) (buffers s) (ops s)
               | 3 => mkHookState (canvas s) (Some (RestoreSaved (getImageData (canvas s))))
                                  (buffers s) (ops s ++ [DidGetImageData])
               | _ => mkHookState (canvas s) None (buffers s) (ops s)
               end in
      (* Draw current frame. *)
      Some (mkHookState (installedOnDrawFrame (canvas s) frame buffer i)
                        (disposeFrame s) (buffers s) (ops s ++ [DidDrawFrame i]))
    end
  end.

(** What a frame leaves pending, given the canvas just before it is drawn. *)
Definition installed (frame : Frame.t) (before : Canvas) : option Disposer :=
  match Frame.disposal frame with
  | 2 => Some ClearCanvas
  | 3 => Some (RestoreSaved (getImageData before))
  | _ => None
  end.

Definition disposerOps (d : option Disposer) : list CanvasOp :=
  match d with
  | Some ClearCanvas => [DidClearRect]
  | Some (RestoreSaved saved) => [DidPutImageData saved]
  | None => []
  end.

Definition disposerEffect (d : option Disposer) (c : Canvas) : Canvas :=
  match d with
  | Some ClearCanvas => clearRect c
  | Some (RestoreSaved saved) => putImageData saved c
  | None => c
  end.

Definition snapshotOps (frame : Frame.t) : list CanvasOp :=
  match Frame.disposal frame with
  | 3 => [DidGetImageData]
  | _ => []
  end.

End DefaultHooks.

Arguments mkHookState {Canvas ImageData}.
Arguments canvas {Canvas ImageData}.
Arguments disposeFrame {Canvas ImageData}.
Arguments buffers {Canvas ImageData}.
Arguments ops {Canvas ImageData}.
Arguments ClearCanvas {ImageData}.
Arguments RestoreSaved {ImageData}.
Arguments DidClearRect {ImageData}.
Arguments DidGetImageData {ImageData}.
Arguments DidPutImageData {ImageData}.
Arguments DidDrawFrame {ImageData}.
Arguments disposerOps {ImageData}.
Arguments snapshotOps {ImageData}.

(** ** The decoder *)

(** A store into a [Uint8ClampedArray]: the value is clamped to a byte and
    a store outside the array is ignored. *)
Definition clamp (v : Z) : Z := Z.max 0 (Z.min 255 v).

Definition store (buf : list Z) (iv : nat * Z) : list Z := <[iv.1 := clamp iv.2]> buf.

Definition new_Uint8ClampedArray (n : nat) : list Z := replicate n 0%Z.

Definition set_pixels (p : list Z) (f : Frame.t) : Frame.t :=
  Frame.mk (Frame.x f) (Frame.y f) (Frame.width f) (Frame.height f)
           (Frame.delay f) (Frame.disposal f) p.

(** [Decoder.decodeFrame(reader, frameIndex)] *)
Definition decodeFrame (reader : Reader.t) (frameIndex : Z) : option Frame.t :=
  match Reader.frameInfo reader frameIndex with
  | None => None
  | Some frameInfo =>
    let pixels := new_Uint8ClampedArray (Reader.width reader * Reader.height reader * 4) in
    match Reader.decodeAndBlitFrameRGBA reader frameIndex pixels with
    | None => None
    | Some stores => Some (set_pixels (foldl store pixels stores) frameInfo)
    end
  end.

(** The [for] loop of [decodeFramesSync], from [j] on; [None] when the fuel
    runs out before the loop condition fails. *)
Fixpoint rangeLoop (fuel : nat) (j ref : Z) (results : list Z) : option (list Z) :=
  if (if (0 <=? ref)%Z then (j <? ref)%Z else (j >? ref)%Z) then
    match fuel with
    | 0 => None
    | S fuel =>
      rangeLoop fuel (if (0 <=? ref)%Z then j + 1 else j - 1)%Z ref (results ++ [j])
    end
  else Some results.

(** [Decoder.decodeFramesSync(reader)]; the first frame that fails to
    decode aborts the whole [map]. *)
Definition decodeFramesSync (reader : Reader.t) : option (list Frame.t) :=
  let ref := Reader.numFrames reader in
  match rangeLoop (Z.abs_nat ref) 0 ref [] with
  | None => None
  | Some results => mapM (decodeFrame reader) results
  end.

(** [new ThinGifler(gifArrayBuffer)], from the reader built on the bytes. *)
Definition new_ThinGifler (reader : Reader.t) : option Animator :=
  match decodeFramesSync reader with
  | None => None
  | Some frames => Some (new_Animator reader frames)
  end.

(** ** Auxiliary notions for the proofs *)

(** How one run of the scheduling loop ended, from world [w] to [w'],
    having computed the negative delays [negs] on the way. *)
Inductive LoopEnd {H : Type} (w w' : World H) (negs : list Z) : Completion -> Prop :=
| end_stopped :
    _running (this w') = false ->
    log w' = log w ++ map Computed negs ->
    timers w' = timers w ->
    LoopEnd w w' negs Normal
| end_scheduled (d : Z) :
    _running (this w') = true -> (0 <= d)%Z ->
    log w' = log w ++ map Computed negs ++ [Computed d; TimerSet d] ->
    timers w' = timers w ++ [d] ->
    LoopEnd w w' negs Normal
| end_threw :
    _running (this w') = true ->
    _frames (this w') !! _frameIndex (this w') = None ->
    log w' = log w ++ map Computed negs ->
    timers w' = timers w ->
    LoopEnd w w' negs Throws
| end_starved :
    _running (this w') = true ->
    log w' = log w ++ map Computed negs ->
    timers w' = timers w ->
    LoopEnd w w' negs Starved.

(** During a playback with loop count [k]: running on frame [i] of pass
    [p] with one timeout pending; and stopped after the last pass. *)
Definition onPass {H : Type} (k p i : nat) (w : World H) : Prop :=
  _loopCount (this w) = k /\ _running (this w) = true /\
  _loops (this w) = p /\ _frameIndex (this w) = i /\
  i < length (_frames (this w)) /\ p <= k /\ exists d, timers w = [d].

Definition finished {H : Type} (k : nat) (w : World H) : Prop :=
  _loopCount (this w) = k /\ _running (this w) = false /\
  _loops (this w) = k /\ _frameIndex (this w) = length (_frames (this w)) /\
  timers w = [].

(** A sequence of steps of the event loop. *)
Fixpoint run {H : Type} (onFrame : option (option Frame.t -> nat -> H -> option H))
    (acts : list Action) (w : World H) : option (World H) :=
  match acts with
  | [] => Some w
  | act :: acts =>
    match perform onFrame act w with
    | Some w' => run onFrame acts w'
    | None => None
    end
  end.

Definition isStart (act : Action) : bool :=
  match act with CallStart _ => true | _ => false end.

Definition isStop (act : Action) : bool :=
  match act with CallStop => true | _ => false end.

(** ** Concrete animations for the examples *)

(** A canvas as the list of the frame indices painted on it, in order. *)
Definition paintedHook
  : option Frame.t -> nat -> HookState (list nat) (list nat) ->
    option (HookState (list nat) (list nat)) :=
  defaultOnFrame (list nat) (list nat)
    (fun _ => [])                     (* clearRect *)
    (fun ctx => ctx)                  (* getImageData *)
    (fun saved _ => saved)            (* putImageData *)
    (fun _ _ _ ctx => ctx)            (* drawImage, unused: onDrawFrame is given *)
    (Some (fun ctx _ _ i => ctx ++ [i]))
    1 1.

Definition blank : HookState (list nat) (list nat) := mkHookState [] None ∅ [].

(** A frame of a 1 x 1 GIF shown for 100 ms. *)
Definition frame10 (disposal : nat) : Frame.t :=
  Frame.mk 0 0 1 1 10 disposal [0; 0; 0; 255]%Z.

(** A reader of a 1 x 1 GIF whose frames are all [frame10 0]. *)
Definition demoReader (loopCount : nat) (numFrames : Z) : Reader.t :=
  Reader.mk 1 1 numFrames loopCount
    (fun i => if bool_decide (0 <= i < numFrames)%Z
              then Some (Frame.mk 0 0 1 1 10 0 []) else None)
    (fun _ _ => Some [(3, 300%Z); (7, 1%Z)]).

Definition threeFrames : list Frame.t := [frame10 0; frame10 0; frame10 0].

(** Paint callbacks that run exactly when their timeout expires. *)
Definition onTime (rounds : nat) : list (list Z) :=
  (fun i => [Z.of_nat i * 100]%Z) <$> seq 0 rounds.

(** ** Further notions: the ideal schedule and the pending callbacks *)

(** The time at which the delay being waited for ends: the last clock
    reading minus the delay debt. *)
Definition due (a : Animator) : Z := (_lastTime a - _delayCompensation a)%Z.

(** The value of [frame.delay * 10] for the current frame. *)
Definition frameDelayAt (a : Animator) : Z :=
  match _frames a !! _frameIndex a with
  | Some frame => (Frame.delay frame * 10)%Z
  | None => 0%Z
  end.

(** The delays of the current frame and of the frames reached by the next
    [m - 1] advances. *)
Fixpoint delaysFrom (m : nat) (a : Animator) : list Z :=
  match m with
  | 0 => []
  | S m => frameDelayAt a :: delaysFrom m (_advanceFrame a)
  end.

(** The ideal schedule seen from the clock: each frame is due its delay
    after the one before it, and the list gives, for each frame, the time
    left until it is due at the matching clock reading. *)
Fixpoint against (base : Z) (delays clock : list Z) : list Z :=
  match delays, clock with
  | d :: delays, now :: clock => (base + d - now)%Z :: against (base + d) delays clock
  | _, _ => []
  end.

Definition sumZ (l : list Z) : Z := foldr Z.add 0%Z l.

(** The callbacks the event loop still has to run. *)
Definition pending {H : Type} (w : World H) : nat := length (timers w) + frameRequests w.

(** ** The ThinGifler object: [animateInCanvas] and [frames] *)

Section ThinGifler.
(** The canvases of the page, by identity, through the calls made on them
    and on their 2D contexts. *)
Variables Canvas ImageData : Type.
Variable setSize : nat -> nat -> Canvas -> Canvas.   (* canvas.width = w; canvas.height = h *)
Variable clearRect : Canvas -> Canvas.
Variable getImageData : Canvas -> ImageData.
Variable putImageData : ImageData -> Canvas -> Canvas.
Variable drawImage : BufferCanvas -> Z -> Z -> Canvas -> Canvas.

(** The part of the animator object that the scheduler does not touch: the
    two hook slots, [this.disposeFrame], the frame buffers; and the canvases
    it draws on. *)
Record Stage := mkStage {
  canvases : nat -> Canvas;
  onFrameSlot : option nat;
    (* this.onFrame: unset, or the closure made by animateInCanvas over the canvas *)
  onDrawFrameSlot : option (Canvas -> Frame.t -> BufferCanvas -> nat -> Canvas);
    (* this.onDrawFrame *)
  stage_disposeFrame : option (Disposer ImageData);
  stage_buffers : gmap nat BufferCanvas;
  stage_ops : list (CanvasOp ImageData)
}.

Definition setCanvas (c : nat) (v : Canvas) (f : nat -> Canvas) : nat -> Canvas :=
  fun c' => if decide (c' = c) then v else f c'.

(** The [onDrawFrame] that [animateInCanvas] assigns when there is none. *)
Definition defaultOnDrawFrame : Canvas -> Frame.t -> BufferCanvas -> nat -> Canvas :=
  fun ctx frame buffer _ => drawImage buffer (Frame.x frame) (Frame.y frame) ctx.

(** The [onFrame] closure that [animateInCanvas] makes over the canvas
    [target] and its context: the default hook on that canvas, with [this.onDrawFrame],
    [this.width] and [this.height] read when it is called. *)
Definition onFrameOver (target : nat) (gifWidth gifHeight : nat)
    (frame : option Frame.t) (i : nat) (st : Stage) : option Stage :=
  match defaultOnFrame Canvas ImageData clearRect getImageData putImageData drawImage
          (onDrawFrameSlot st) gifWidth gifHeight frame i
          (mkHookState (canvases st target) (stage_disposeFrame st) (stage_buffers st)
                       (stage_ops st)) with
  | Some s =>
    Some (mkStage (setCanvas target (canvas s) (canvases st)) (onFrameSlot st)
                  (onDrawFrameSlot st) (disposeFrame s) (buffers s) (ops s))
  | None => None
  end.

(** The value of [this.onFrame] at a tick. *)
Definition onFrameOf (g : World Stage)
  : option (option Frame.t -> nat -> Stage -> option Stage) :=
  match onFrameSlot (hookState g) with
  | Some target => Some (onFrameOver target (width (this g)) (height (this g)))
  | None => None
  end.

(** [animateInCanvas(canvas, setDimensions)] *)
Definition animateInCanvas (target : nat) (setDimensions : bool) (now : Z)
    (g : World Stage) : World Stage :=
  let st := hookState g in
  let st :=
    if setDimensions then
      mkStage (setCanvas target (setSize (width (this g)) (height (this g))
                                         (canvases st target)) (canvases st))
              (onFrameSlot st) (onDrawFrameSlot st) (stage_disposeFrame st)
              (stage_buffers st) (stage_ops st)
    else st in
  let st :=
    match onDrawFrameSlot st with
    | None => mkStage (canvases st) (onFrameSlot st) (Some defaultOnDrawFrame)
                      (stage_disposeFrame st) (stage_buffers st) (stage_ops st)
    | Some _ => st
    end in
  let st :=
    match onFrameSlot st with
    | None => mkStage (canvases st) (Some target) (onDrawFrameSlot st)
                      (stage_disposeFrame st) (stage_buffers st) (stage_ops st)
    | Some _ => st
    end in
  (* Start animation. *)
  start now (set_hookState st g).

(** [ThinGifler.frames(canvas, onDrawFrame, setCanvasDimesions)] *)
Definition ThinGifler_frames (target : nat)
    (onDrawFrame : option (Canvas -> Frame.t -> BufferCanvas -> nat -> Canvas))
    (setCanvasDimesions : bool) (now : Z) (g : World Stage) : World Stage :=
  let st := hookState g in
  let st := mkStage (canvases st) (onFrameSlot st) onDrawFrame (stage_disposeFrame st)
                    (stage_buffers st) (stage_ops st) in
  animateInCanvas target setCanvasDimesions now (set_hookState st g).

(** [new ThinGifler(gifArrayBuffer)] in a page with the given canvases. *)
Definition new_ThinGifler_in (page : nat -> Canvas) (reader : Reader.t)
  : option (World Stage) :=
  match decodeFramesSync reader with
  | None => None
  | Some decoded => Some (create reader decoded (mkStage page None None None ∅ []))
  end.

(** What the host and the event loop can do with a ThinGifler. *)
Inductive Use :=
| CallFrames (target : nat)
             (onDrawFrame : option (Canvas -> Frame.t -> BufferCanvas -> nat -> Canvas))
             (setCanvasDimesions : bool) (now : Z)
| CallGiflerStop                   (* ThinGifler.stop() *)
| Timeout (i : nat)
| Paint (clock : list Z).

Definition use (u : Use) (g : World Stage) : option (World Stage) :=
  match u with
  | CallFrames target onDrawFrame setCanvasDimesions now =>
    Some (ThinGifler_frames target onDrawFrame setCanvasDimesions now g)
  | CallGiflerStop => Some (upd stop g)
  | Timeout i => perform (onFrameOf g) (TimerFires i) g
  | Paint clock => perform (onFrameOf g) (PaintFires clock) g
  end.

Fixpoint uses (us : list Use) (g : World Stage) : option (World Stage) :=
  match us with
  | [] => Some g
  | u :: us =>
    match use u g with
    | Some g' => uses us g'
    | None => None
    end
  end.

(** Whether a use sets the size of the given canvas. *)
Definition resizes (target : nat) (u : Use) : bool :=
  match u with
  | CallFrames c _ true _ => bool_decide (c = target)
  | _ => false
  end.

End ThinGifler.

Arguments mkStage {Canvas ImageData}.
Arguments canvases {Canvas ImageData}.
Arguments onFrameSlot {Canvas ImageData}.
Arguments onDrawFrameSlot {Canvas ImageData}.
Arguments stage_disposeFrame {Canvas ImageData}.
Arguments stage_buffers {Canvas ImageData}.
Arguments stage_ops {Canvas ImageData}.
Arguments setCanvas {Canvas}.
Arguments CallFrames {Canvas}.
Arguments CallGiflerStop {Canvas}.
Arguments Timeout {Canvas}.
Arguments Paint {Canvas}.
Arguments resizes {Canvas}.


(** ** A concrete page for the examples *)

(** Canvases as the lists of the frame indices drawn on them (of the buffer
    widths, when the default draw callback draws); setting the size of a
    canvas clears it. *)
Definition demoFrames
  : nat -> option (list nat -> Frame.t -> BufferCanvas -> nat -> list nat) -> bool -> Z ->
    World (Stage (list nat) (list nat)) -> World (Stage (list nat) (list nat)) :=
  ThinGifler_frames (list nat) (list nat)
    (fun _ _ _ => [])                                  (* canvas.width = ...; canvas.height = ... *)
    (fun buffer _ _ ctx => ctx ++ [buffer_width buffer]).  (* drawImage *)

Definition demoUses
  : list (Use (list nat)) -> World (Stage (list nat) (list nat)) ->
    option (World (Stage (list nat) (list nat))) :=
  uses (list nat) (list nat)
    (fun _ _ _ => [])
    (fun _ => [])                     (* clearRect *)
    (fun ctx => ctx)                  (* getImageData *)
    (fun saved _ => saved)            (* putImageData *)
    (fun buffer _ _ ctx => ctx ++ [buffer_width buffer]).

Definition demoHook (g : World (Stage (list nat) (list nat)))
  : option (option Frame.t -> nat -> Stage (list nat) (list nat) ->
            option (Stage (list nat) (list nat))) :=
  onFrameOf (list nat) (list nat)
    (fun _ => []) (fun ctx => ctx) (fun saved _ => saved)
    (fun buffer _ _ ctx => ctx ++ [buffer_width buffer]) g.

(** A page whose canvases are all empty. *)
Definition demoPage : nat -> list nat := fun _ => [].

Definition drawIndex : list nat -> Frame.t -> BufferCanvas -> nat -> list nat :=
  fun ctx _ _ i => ctx ++ [i].

(** A frame that is shown for no time at all. *)
Definition frame0 : Frame.t := Frame.mk 0 0 1 1 0 0 [0; 0; 0; 255]%Z.

(** * Proofs *)

(** ** The animator alone *)

Ltac if_cases :=
  repeat match goal with
         | |- context [if ?b then _ else _] => destruct b eqn:?; cbn
         end.

Lemma advance_static (a : Animator) :
  _frames (_advanceFrame a) = _frames a /\
  _loopCount (_advanceFrame a) = _loopCount a /\
  width (_advanceFrame a) = width a /\ height (_advanceFrame a) = height a /\
  _lastTime (_advanceFrame a) = _lastTime a /\
  _delayCompensation (_advanceFrame a) = _delayCompensation a.
Proof. unfold _advanceFrame, stop; cbn; if_cases; auto 10. Qed.

(** The three ways an advance can go. *)
Lemma advance_cases (a : Animator) :
  let a' := _advanceFrame a in
  (_frameIndex a + 1 < length (_frames a) /\
   _frameIndex a' = _frameIndex a + 1 /\ _loops a' = _loops a /\ _running a' = _running a)
  \/
  (length (_frames a) <= _frameIndex a + 1 /\ _loopCount a <> 0 /\ _loopCount a = _loops a /\
   _frameIndex a' = _frameIndex a + 1 /\ _loops a' = _loops a /\ _running a' = false)
  \/
  (length (_frames a) <= _frameIndex a + 1 /\ (_loopCount a = 0 \/ _loopCount a <> _loops a) /\
   _frameIndex a' = 0 /\ _loops a' = _loops a + 1 /\ _running a' = _running a).
Proof.
  unfold _advanceFrame, stop; cbn.
  destruct (length (_frames a) <=? _frameIndex a + 1) eqn:Hend; cbn.
  - apply Nat.leb_le in Hend.
    destruct (_loopCount a =? 0) eqn:Hzero; cbn.
    + apply Nat.eqb_eq in Hzero. right; right. auto.
    + apply Nat.eqb_neq in Hzero.
      destruct (_loopCount a =? _loops a) eqn:Heq; cbn.
      * apply Nat.eqb_eq in Heq. right; left. auto 10.
      * apply Nat.eqb_neq in Heq. right; right. auto.
  - apply Nat.leb_gt in Hend. left. auto.
Qed.

Lemma samePosition_trans (a b c : Animator) :
  samePosition a b -> samePosition b c -> samePosition a c.
Proof. unfold samePosition. intuition congruence. Qed.

Lemma samePosition_advance (a b : Animator) :
  samePosition a b -> samePosition (_advanceFrame a) (_advanceFrame b).
Proof.
  intros (Hf & Hc & Hl & Hi & Hr). unfold samePosition, _advanceFrame, stop. cbn.
  rewrite Hf, Hc, Hl, Hi. if_cases; auto.
Qed.

Lemma samePosition_iter (n : nat) (a b : Animator) :
  samePosition a b ->
  samePosition (Nat.iter n _advanceFrame a) (Nat.iter n _advanceFrame b).
Proof. intros Hab. induction n as [|n IH]; cbn; [done | by apply samePosition_advance]. Qed.

Lemma iter_advance_static (n : nat) (a : Animator) :
  _frames (Nat.iter n _advanceFrame a) = _frames a /\
  _loopCount (Nat.iter n _advanceFrame a) = _loopCount a.
Proof.
  induction n as [|n [IHf IHc]]; [done|].
  change (Nat.iter (S n) _advanceFrame a) with (_advanceFrame (Nat.iter n _advanceFrame a)).
  destruct (advance_static (Nat.iter n _advanceFrame a)) as (-> & -> & _). done.
Qed.

(** After an advance the animator is stopped or on a frame that exists. *)
Lemma advance_in_range (a : Animator) :
  _frames a <> [] -> _running (_advanceFrame a) = true ->
  _frameIndex (_advanceFrame a) < length (_frames a).
Proof.
  intros Hne Hrun.
  assert (0 < length (_frames a)) by (destruct (_frames a); [done | cbn; lia]).
  destruct (advance_cases a) as [C|[C|C]]; cbn in C; intuition (try congruence; lia).
Qed.

(** The advance that stops the animator leaves the frame index one past the
    last frame; every other advance of an animator with frames puts it on a
    frame that exists. *)
Lemma advance_stop_past_the_end (a : Animator) :
  _running a = true -> _running (_advanceFrame a) = false ->
  _frameIndex (_advanceFrame a) = _frameIndex a + 1 /\
  length (_frames (_advanceFrame a)) <= _frameIndex (_advanceFrame a).
Proof.
  intros Hon Hoff. destruct (advance_static a) as (-> & _).
  destruct (advance_cases a) as [C|[C|C]]; cbn in C; intuition (try congruence; lia).
Qed.

(** ** The scheduling loop *)

Section PlayerFacts.
Context {H : Type}.
Variable onFrame : option (option Frame.t -> nat -> H -> option H).

Lemma LoopEnd_cons (w w1 w' : World H) (d : Z) (negs : list Z) (c : Completion) :
  log w1 = log w ++ [Computed d] -> timers w1 = timers w ->
  LoopEnd w1 w' negs c -> LoopEnd w w' (d :: negs) c.
Proof.
  intros Hl Ht Hend.
  destruct Hend as [Hr Hlog Htm | d' Hr Hd Hlog Htm | Hr Hf Hlog Htm | Hr Hlog Htm];
    rewrite Hl, <- app_assoc in Hlog; rewrite Ht in Htm.
  - by apply end_stopped.
  - by apply (end_scheduled _ _ _ d').
  - by apply end_threw.
  - by apply end_starved.
Qed.

Lemma enqueueLoop_shape (clock : list Z) (w w' : World H) (c : Completion) :
  enqueueLoop clock w = (w', c) ->
  exists negs : list Z,
    Forall (fun d => (d < 0)%Z) negs /\ length negs <= length clock /\
    samePosition (this w') (Nat.iter (length negs) _advanceFrame (this w)) /\
    hookState w' = hookState w /\ frameRequests w' = frameRequests w /\
    LoopEnd w w' negs c.
Proof.
  revert w. induction clock as [|now clock IH]; intros w; cbn [enqueueLoop].
  - destruct (_running (this w)) eqn:Hrun; cbn; intros [= <- <-]; exists [];
      cbn; (repeat split; [constructor | lia | done..| ]).
    + by apply end_starved; rewrite ?app_nil_r.
    + by apply end_stopped; rewrite ?app_nil_r.
  - destruct (_running (this w)) eqn:Hrun; cbn [negb].
    2:{ intros [= <- <-]. exists []. cbn.
        repeat split; [constructor | lia | done.. | ].
        by apply end_stopped; rewrite ?app_nil_r. }
    destruct (_frames (this w) !! _frameIndex (this w)) as [frame|] eqn:Hframe.
    2:{ intros [= <- <-]. exists []. cbn.
        repeat split; [constructor | lia | done.. | ].
        by apply end_threw; cbn; rewrite ?app_nil_r. }
    cbn zeta.
    match goal with |- context [(?d <? 0)%Z] => set (actualDelay := d) end.
    destruct (actualDelay <? 0)%Z eqn:Hneg.
    + match goal with |- enqueueLoop _ ?x = _ -> _ => set (w1 := x) end.
      intros Hloop.
      apply IH in Hloop as (negs & Hnegs & Hlen & Hpos & Hhook & Hreq & Hend).
      exists (actualDelay :: negs). cbn [length].
      split; [constructor; [lia | done]|].
      split; [lia|].
      split.
      { eapply samePosition_trans; [exact Hpos|].
        rewrite Nat.iter_succ_r. apply samePosition_iter, samePosition_advance.
        by repeat split. }
      repeat split; [done..|].
      by apply (LoopEnd_cons w w1).
    + intros [= <- <-]. exists []. cbn [length map Nat.iter].
      repeat split; [constructor | lia | done.. | ].
      apply (end_scheduled _ _ _ actualDelay); cbn; [done | lia | by rewrite <- app_assoc | done].
Qed.

(** The same for [_enqueueNextFrame], which advances once before the loop. *)
Lemma enqueueNextFrame_shape (clock : list Z) (w w' : World H) (c : Completion) :
  _enqueueNextFrame clock w = (w', c) ->
  exists negs : list Z,
    Forall (fun d => (d < 0)%Z) negs /\ length negs <= length clock /\
    samePosition (this w') (Nat.iter (S (length negs)) _advanceFrame (this w)) /\
    hookState w' = hookState w /\ frameRequests w' = frameRequests w /\
    LoopEnd w w' negs c.
Proof.
  unfold _enqueueNextFrame. intros Hloop.
  apply enqueueLoop_shape in Hloop as (negs & Hnegs & Hlen & Hpos & Hhook & Hreq & Hend).
  exists negs. rewrite Nat.iter_succ_r. do 5 (split; [done|]).
  destruct Hend; [apply end_stopped | eapply end_scheduled | apply end_threw | apply end_starved]; eauto.
Qed.

(** The projections of the log. *)
Lemma renders_computed (negs : list Z) : renders (map Computed negs) = [].
Proof. by induction negs. Qed.

Lemma timeouts_computed (negs : list Z) : timeouts (map Computed negs) = [].
Proof. by induction negs. Qed.

Lemma computedDelays_computed (negs : list Z) : computedDelays (map Computed negs) = negs.
Proof. induction negs as [|d negs IH]; [done | cbn; f_equal; exact IH]. Qed.

Lemma renders_app (l1 l2 : list Event) : renders (l1 ++ l2) = renders l1 ++ renders l2.
Proof. apply omap_app. Qed.

Lemma timeouts_app (l1 l2 : list Event) : timeouts (l1 ++ l2) = timeouts l1 ++ timeouts l2.
Proof. apply omap_app. Qed.

Lemma computedDelays_app (l1 l2 : list Event) :
  computedDelays (l1 ++ l2) = computedDelays l1 ++ computedDelays l2.
Proof. apply omap_app. Qed.

(** What a paint callback does when the animator is running and the hook
    returns: one render, then the scheduling step. *)
Lemma nextFrameRender_running (clock : list Z) (w : World H) :
  _running (this w) = true ->
  _nextFrameRender onFrame clock w =
  match onFrame with
  | Some ref =>
    match ref (_frames (this w) !! _frameIndex (this w)) (_frameIndex (this w)) (hookState w) with
    | None => (emit (Rendered (_frameIndex (this w))) w, Throws)
    | Some h =>
      _enqueueNextFrame clock (set_hookState h (emit (Rendered (_frameIndex (this w))) w))
    end
  | None => _enqueueNextFrame clock w
  end.
Proof. intros Hrun. unfold _nextFrameRender. rewrite Hrun. cbn. by destruct onFrame. Qed.

Lemma nextFrameRender_stopped (clock : list Z) (w : World H) :
  _running (this w) = false -> _nextFrameRender onFrame clock w = (w, Normal).
Proof. intros Hrun. unfold _nextFrameRender. by rewrite Hrun. Qed.

(** Every step of the event loop extends the log and keeps the frames and
    the loop count. *)
Lemma nextFrameRender_log (clock : list Z) (w w' : World H) (c : Completion) :
  _nextFrameRender onFrame clock w = (w', c) ->
  _frames (this w') = _frames (this w) /\ _loopCount (this w') = _loopCount (this w) /\
  exists l, log w' = log w ++ l /\ timers w' = timers w ++ timeouts l /\
            Forall (fun d => (0 <= d)%Z) (timeouts l) /\
            frameRequests w' = frameRequests w.
Proof.
  destruct (_running (this w)) eqn:Hrun.
  2:{ rewrite nextFrameRender_stopped by done. intros [= <- <-].
      repeat split. exists []. by rewrite !app_nil_r. }
  rewrite nextFrameRender_running by done.
  assert (Hshape : forall w0 : World H,
    _enqueueNextFrame clock w0 = (w', c) ->
    _frames (this w') = _frames (this w0) /\ _loopCount (this w') = _loopCount (this w0) /\
    exists l, log w' = log w0 ++ l /\ timers w' = timers w0 ++ timeouts l /\
              Forall (fun d => (0 <= d)%Z) (timeouts l) /\
              frameRequests w' = frameRequests w0).
  { intros w0 Henq.
    apply enqueueNextFrame_shape in Henq as (negs & _ & _ & Hpos & _ & Hreq & Hend).
    destruct Hpos as (Hf & Hc & _).
    destruct (iter_advance_static (S (length negs)) (this w0)) as [Hf' Hc'].
    split; [congruence|]. split; [congruence|].
    destruct Hend as [Hr Hlog Htm | d Hr Hd Hlog Htm | Hr Hfr Hlog Htm | Hr Hlog Htm].
    - exists (map Computed negs). rewrite timeouts_computed, app_nil_r. by repeat split.
    - exists (map Computed negs ++ [Computed d; TimerSet d]).
      rewrite timeouts_app, timeouts_computed. cbn. repeat split; try done.
      by repeat constructor.
    - exists (map Computed negs). rewrite timeouts_computed, app_nil_r. by repeat split.
    - exists (map Computed negs). rewrite timeouts_computed, app_nil_r. by repeat split. }
  destruct onFrame as [ref|]; [|apply Hshape].
  destruct (ref _ _ _) as [h|].
  - intros Henq. apply Hshape in Henq as (Hf & Hc & l & Hlog & Htm & Hall & Hreq).
    cbn in *. split; [done|]. split; [done|].
    exists (Rendered (_frameIndex (this w)) :: l).
    rewrite Hlog, <- app_assoc. by repeat split.
  - intros [= <- <-]. cbn. repeat split.
    exists [Rendered (_frameIndex (this w))]. cbn. rewrite app_nil_r. by repeat split.
Qed.

Lemma perform_log (act : Action) (w w' : World H) :
  perform onFrame act w = Some w' ->
  _frames (this w') = _frames (this w) /\ _loopCount (this w') = _loopCount (this w) /\
  (Forall (fun d => (0 <= d)%Z) (timers w) -> Forall (fun d => (0 <= d)%Z) (timers w')) /\
  exists l, log w' = log w ++ l /\ Forall (fun d => (0 <= d)%Z) (timeouts l).
Proof.
  destruct act as [now| | |i|clock]; cbn.
  - intros [= <-]. cbn. repeat split.
    + intros Hall. apply Forall_app. split; [done | by repeat constructor].
    + exists [TimerSet 0]. split; [done | by repeat constructor].
  - intros [= <-]. cbn. repeat split; [done|]. exists []. by rewrite app_nil_r.
  - intros [= <-]. cbn. repeat split; [done|]. exists []. by rewrite app_nil_r.
  - destruct (timers w !! i); [|done]. intros [= <-]. cbn. repeat split.
    + apply Forall_delete.
    + exists [PaintRequested]. by split.
  - destruct (frameRequests w) as [|n]; [done|].
    destruct (_nextFrameRender _ _ _) as [w1 c] eqn:Hrender.
    apply nextFrameRender_log in Hrender as (Hf & Hc & l & Hlog & Htm & Hall & _).
    assert (Some w1 = Some w' -> _frames (this w') = _frames (this w) /\
      _loopCount (this w') = _loopCount (this w) /\
      (Forall (fun d => (0 <= d)%Z) (timers w) -> Forall (fun d => (0 <= d)%Z) (timers w')) /\
      exists l, log w' = log w ++ l /\ Forall (fun d => (0 <= d)%Z) (timeouts l)).
    { intros [= <-]. cbn in *. repeat split; [done..| |by exists l].
      intros Hold. rewrite Htm. by apply Forall_app. }
    by destruct c.
Qed.

(** No delay handed to [setTimeout] is negative, in any state the event
    loop can reach. *)
Lemma reachable_timeouts (w : World H) :
  Reachable onFrame w ->
  Forall (fun d => (0 <= d)%Z) (timeouts (log w)) /\
  Forall (fun d => (0 <= d)%Z) (timers w).
Proof.
  induction 1 as [r frames h | w w' act _ [IHlog IHtm] Hstep]; cbn.
  - by split.
  - apply perform_log in Hstep as (_ & _ & Htm & l & -> & Hall).
    rewrite timeouts_app. split; [by apply Forall_app | by apply Htm].
Qed.

(** C2. Whenever the scheduling step computes a negative delay it advances
    again without rendering and computes the delay of the next frame; it goes
    on until a delay is non-negative (and is handed to setTimeout) or the
    animator stops.  No negative delay is ever handed to setTimeout. *)
Theorem C2_catch_up_skips_until_nonnegative (w : World H) (clock : list Z) :
  let w' := (_enqueueNextFrame clock w).1 in
  (exists negs : list Z,
     Forall (fun d => (d < 0)%Z) negs /\
     samePosition (this w') (Nat.iter (S (length negs)) _advanceFrame (this w)) /\
     renders (log w') = renders (log w) /\ hookState w' = hookState w /\
     LoopEnd w w' negs (_enqueueNextFrame clock w).2) /\
  (Reachable onFrame w ->
   Forall (fun d => (0 <= d)%Z) (timeouts (log w)) /\
   Forall (fun d => (0 <= d)%Z) (timers w)).
Proof.
  split; [|apply reachable_timeouts].
  destruct (_enqueueNextFrame clock w) as [w' c] eqn:Henq. cbn.
  apply enqueueNextFrame_shape in Henq as (negs & Hnegs & _ & Hpos & Hhook & _ & Hend).
  exists negs. repeat (split; [done|]).
  split; [|done].
  destruct Hend as [_ -> _ | d _ _ -> _ | _ _ -> _ | _ -> _];
    rewrite ?renders_app, ?renders_computed; cbn; by rewrite ?app_nil_r.
Qed.

(** ** The public operations *)

(** C7. reset() sets the frame index and the loop counter to 0 and changes
    nothing else: not the running flag, not the time bookkeeping, not the
    hook's state (the pending disposal is part of it); it renders nothing and
    schedules nothing. *)
Theorem C7_reset_rewinds_only (w : World H) :
  let w' := upd reset w in
  perform onFrame CallReset w = Some w' /\
  _frameIndex (this w') = 0 /\ _loops (this w') = 0 /\
  _running (this w') = _running (this w) /\
  _lastTime (this w') = _lastTime (this w) /\
  _delayCompensation (this w') = _delayCompensation (this w) /\
  _frames (this w') = _frames (this w) /\ _loopCount (this w') = _loopCount (this w) /\
  width (this w') = width (this w) /\ height (this w') = height (this w) /\
  hookState w' = hookState w /\
  log w' = log w /\ timers w' = timers w /\ frameRequests w' = frameRequests w.
Proof. cbn. by repeat split. Qed.

Lemma perform_paint (clock : list Z) (w w' : World H) :
  perform onFrame (PaintFires clock) w = Some w' ->
  exists n c, frameRequests w = S n /\ c <> Starved /\
              _nextFrameRender onFrame clock (set_frameRequests n w) = (w', c).
Proof.
  cbn. destruct (frameRequests w) as [|n]; [done|].
  destruct (_nextFrameRender _ _ _) as [w1 c] eqn:Hrender.
  destruct c; intros [= <-]; eexists n, _; (split; [done|]); (split; [|exact Hrender]); done.
Qed.

(** One round of [playback] on a running animator: the render of the
    current frame, then the scheduling step from the world [w0]. *)
Lemma round_running (clock : list Z) (w w1 w2 : World H) :
  _running (this w) = true ->
  perform onFrame (TimerFires 0) w = Some w1 ->
  perform onFrame (PaintFires clock) w1 = Some w2 ->
  let i := _frameIndex (this w) in
  let scheduling (l : list Event) (h : H) :=
    exists (w0 : World H) (c : Completion),
      c <> Starved /\ _enqueueNextFrame clock w0 = (w2, c) /\
      this w0 = this w /\ hookState w0 = h /\ timers w0 = delete 0 (timers w) /\
      frameRequests w0 = frameRequests w /\ log w0 = log w ++ l in
  match onFrame with
  | Some ref =>
    match ref (_frames (this w) !! i) i (hookState w) with
    | Some h => scheduling [PaintRequested; Rendered i] h
    | None =>
      this w2 = this w /\ timers w2 = delete 0 (timers w) /\
      log w2 = log w ++ [PaintRequested; Rendered i]
    end
  | None => scheduling [PaintRequested] (hookState w)
  end.
Proof.
  intros Hrun Htimer Hpaint. cbn in Htimer.
  destruct (timers w !! 0) as [d0|]; [|done]. injection Htimer as <-.
  apply perform_paint in Hpaint as (n & c & Hreq & Hc & Hrender).
  cbn in Hreq. assert (n = frameRequests w) as -> by lia. clear Hreq.
  rewrite nextFrameRender_running in Hrender by done. cbn in Hrender. cbn zeta.
  destruct onFrame as [ref|].
  - destruct (ref _ _ _) as [h|].
    + eexists _, c. split; [done|]. split; [exact Hrender|]. cbn.
      by rewrite <- app_assoc.
    + injection Hrender as <- <-. cbn. by rewrite <- app_assoc.
  - eexists _, c. split; [done|]. split; [exact Hrender|]. by cbn.
Qed.

Lemma enqueueNextFrame_renders (clock : list Z) (w w' : World H) (c : Completion) :
  _enqueueNextFrame clock w = (w', c) -> renders (log w') = renders (log w).
Proof.
  intros Henq.
  apply enqueueNextFrame_shape in Henq as (negs & _ & _ & _ & _ & _ & Hend).
  destruct Hend as [_ -> _ | d _ _ -> _ | _ _ -> _ | _ -> _];
    rewrite ?renders_app, ?renders_computed; cbn; by rewrite ?app_nil_r.
Qed.

(** C6. start() sets the running flag, sets the last tick time to the
    current time and the delay debt to 0, and sets one timeout of 0 ms; it
    leaves the frame index and the loop counter alone.  So after stop() and
    start(), the next tick renders the frame the animator was on. *)
Theorem C6_start_primes_timing_keeps_position
    (w w2 : World H) (now : Z) (clock : list Z) :
  playback onFrame [clock] (start now (upd stop w)) = Some w2 ->
  let w' := start now w in
  (perform onFrame (CallStart now) w = Some w' /\
   _running (this w') = true /\ _lastTime (this w') = now /\
   _delayCompensation (this w') = 0%Z /\
   timers w' = timers w ++ [0%Z] /\ log w' = log w ++ [TimerSet 0] /\
   frameRequests w' = frameRequests w /\ hookState w' = hookState w /\
   _frameIndex (this w') = _frameIndex (this w) /\ _loops (this w') = _loops (this w) /\
   _frames (this w') = _frames (this w) /\ _loopCount (this w') = _loopCount (this w)) /\
  renders (log w2) =
  renders (log w) ++ match onFrame with Some _ => [_frameIndex (this w)] | None => [] end.
Proof.
  intros Hplay. split; [cbn; by repeat split|].
  cbn [playback] in Hplay.
  destruct (timers (start now (upd stop w))) as [|d0 ds] eqn:Htm;
    [cbn in Htm; by destruct (timers w)|]. clear d0 ds Htm.
  destruct (perform onFrame (TimerFires 0) _) as [w1|] eqn:Htimer; [|done].
  destruct (perform onFrame (PaintFires clock) w1) as [w3|] eqn:Hpaint; [|done].
  injection Hplay as ->.
  pose proof (round_running clock (start now (upd stop w)) _ _ eq_refl Htimer Hpaint)
    as Hround. cbn zeta in Hround.
  assert (Hstart : renders (log (start now (upd stop w))) = renders (log w)).
  { cbn. rewrite renders_app. apply app_nil_r. }
  destruct onFrame as [ref|].
  - destruct (ref _ _ _) as [h|].
    + destruct Hround as (w0 & c & _ & Henq & _ & _ & _ & _ & Hlog).
      rewrite (enqueueNextFrame_renders _ _ _ _ Henq), Hlog, renders_app, Hstart. done.
    + destruct Hround as (_ & _ & ->). by rewrite renders_app, Hstart.
  - destruct Hround as (w0 & c & _ & Henq & _ & _ & _ & _ & Hlog).
    rewrite (enqueueNextFrame_renders _ _ _ _ Henq), Hlog, renders_app, Hstart. done.
Qed.

(** Without a start(), a stopped animator stays stopped: nothing is
    rendered, no hook runs, no timeout is set, and the callbacks still
    pending only run out. *)
Lemma stopped_stays_silent (acts : list Action) (w w' : World H) :
  _running (this w) = false ->
  forallb (fun act => negb (isStart act)) acts = true ->
  run onFrame acts w = Some w' ->
  _running (this w') = false /\ renders (log w') = renders (log w) /\
  hookState w' = hookState w /\ timeouts (log w') = timeouts (log w) /\
  length (timers w') + frameRequests w' <= length (timers w) + frameRequests w.
Proof.
  revert w. induction acts as [|act acts IH]; intros w Hrun Hacts; cbn.
  - intros [= <-]. by repeat split.
  - cbn in Hacts. apply andb_prop in Hacts as [Hact Hacts].
    destruct (perform onFrame act w) as [w1|] eqn:Hstep; [|done].
    assert (Hw1 : _running (this w1) = false /\ renders (log w1) = renders (log w) /\
                  hookState w1 = hookState w /\ timeouts (log w1) = timeouts (log w) /\
                  length (timers w1) + frameRequests w1
                  <= length (timers w) + frameRequests w).
    { destruct act as [now| | |i|clock]; cbn in Hstep; try done.
      - injection Hstep as <-. by repeat split.
      - injection Hstep as <-. by repeat split.
      - destruct (timers w !! i) as [d|] eqn:Hi; [|done]. injection Hstep as <-. cbn.
        rewrite renders_app, timeouts_app, length_delete by eauto. cbn.
        rewrite !app_nil_r. apply lookup_lt_Some in Hi. repeat split; [done..|lia].
      - destruct (frameRequests w) as [|n] eqn:Hreq; [done|].
        rewrite nextFrameRender_stopped in Hstep by done. injection Hstep as <-. cbn.
        repeat split; [done..|lia]. }
    destruct Hw1 as (Hr1 & Hl1 & Hh1 & Ht1 & Hp1).
    intros Hrest. apply IH in Hrest as (? & ? & ? & ? & ?); [|done..].
    repeat split; [congruence..|lia].
Qed.


(** ** Termination of the scheduling step *)

Lemma lexLt_wf : well_founded lexLt.
Proof.
  intros [x y]. revert y.
  induction (lt_wf x) as [x _ IHx]. intros y.
  induction (lt_wf y) as [y _ IHy].
  constructor. intros [x' y'] [Hlt | [Heq Hlt]]; cbn in Hlt.
  - by apply IHx.
  - cbn in Heq. subst x'. by apply IHy.
Qed.

Lemma advance_budget (a : Animator) :
  _frames a <> [] -> _loopCount a <> 0 -> _loops a <= _loopCount a ->
  let a' := _advanceFrame a in
  (_running a' = true ->
   _running a = true /\ budget a' < budget a /\ lexLt (remaining a') (remaining a) /\
   _loops a' <= _loopCount a' /\ _frameIndex a' < length (_frames a')) /\
  (_running a = true -> _running a' = false ->
   _loops a' = _loopCount a' /\ length (_frames a') <= _frameIndex a').
Proof.
  intros Hne Hcount Hle a'.
  assert (Hn : 0 < length (_frames a)) by (destruct (_frames a); [done | cbn; lia]).
  destruct (advance_static a) as (Hf & Hc & _). fold a' in Hf, Hc.
  unfold budget, remaining, lexLt. cbn [fst snd]. rewrite Hf, Hc.
  destruct (advance_cases a) as [C|[C|C]]; fold a' in C.
  - destruct C as (Hlt & -> & -> & ->). split; [|congruence].
    intros ->. repeat split; lia.
  - destruct C as (Hge & _ & Heq & -> & -> & ->). split; [done|].
    intros _ _. lia.
  - destruct C as (Hge & Hwrap & -> & -> & ->). split; [|congruence].
    intros ->. assert (Hlt : _loops a < _loopCount a) by lia.
    repeat split; try lia.
    replace (_loopCount a - _loops a) with (S (_loopCount a - (_loops a + 1))) by lia.
    lia.
Qed.

Lemma enqueueLoop_terminates (clock : list Z) (w : World H) :
  _frames (this w) <> [] -> _loopCount (this w) <> 0 ->
  (_running (this w) = true ->
   budget (this w) < length clock /\ _loops (this w) <= _loopCount (this w) /\
   _frameIndex (this w) < length (_frames (this w))) ->
  (_running (this w) = false ->
   _loops (this w) = _loopCount (this w) /\ length (_frames (this w)) <= _frameIndex (this w)) ->
  exists w', enqueueLoop clock w = (w', Normal) /\
             (_running (this w') = false ->
              _loops (this w') = _loopCount (this w') /\
              length (_frames (this w')) <= _frameIndex (this w')).
Proof.
  revert w. induction clock as [|now clock IH]; intros w Hne Hcount Hon Hoff; cbn [enqueueLoop].
  - destruct (_running (this w)) eqn:Hrun; cbn.
    + destruct Hon as (Hb & _); [done|]. cbn in Hb. lia.
    + exists w. split; [done|]. intros _. by apply Hoff.
  - destruct (_running (this w)) eqn:Hrun; cbn [negb].
    2:{ exists w. split; [done|]. intros _. by apply Hoff. }
    destruct Hon as (Hb & Hle & Hidx); [done|].
    destruct (lookup_lt_is_Some_2 _ _ Hidx) as [frame Hframe]. rewrite Hframe. cbn zeta.
    match goal with |- context [(?d <? 0)%Z] => set (actualDelay := d) end.
    destruct (actualDelay <? 0)%Z eqn:Hneg.
    + match goal with |- context [enqueueLoop _ (upd _ ?x)] => set (w1 := x) end.
      assert (Hsame : samePosition (this w1) (this w)) by (by repeat split).
      destruct Hsame as (Hf1 & Hc1 & Hl1 & Hi1 & Hr1).
      destruct (advance_budget (this w1)) as [Hadv_on Hadv_off]; [congruence..|].
      destruct (advance_static (this w1)) as (Hf2 & Hc2 & _).
      apply IH; cbn [this upd].
      * congruence.
      * congruence.
      * intros Hrun'. destruct (Hadv_on Hrun') as (_ & Hlt & _ & Hle' & Hidx').
        assert (budget (this w1) = budget (this w)) as Hbw.
        { unfold budget. by rewrite Hf1, Hc1, Hl1, Hi1. }
        cbn in Hb. repeat split; [lia | done | done].
      * intros Hrun'. apply Hadv_off; congruence.
    + eexists. split; [done|]. cbn. congruence.
Qed.

(** ** What every reachable state satisfies *)

Lemma positioned_advance (a : Animator) :
  _frames a <> [] -> positioned a -> positioned (_advanceFrame a).
Proof.
  intros Hne [Hle Hpos].
  assert (Hn : 0 < length (_frames a)) by (destruct (_frames a); [done | cbn; lia]).
  destruct (advance_static a) as (Hf & Hc & _).
  unfold positioned. rewrite Hf, Hc.
  destruct (advance_cases a) as [C|[C|C]]; cbn in C.
  - destruct C as (Hlt & -> & -> & _). split; [done | by left].
  - destruct C as (_ & Hcount & Heq & _ & -> & _). split; [done | by right].
  - destruct C as (_ & Hwrap & -> & -> & _). split; [|by left].
    intros Hcount. specialize (Hle Hcount). lia.
Qed.

Lemma positioned_iter (n : nat) (a : Animator) :
  _frames a <> [] -> positioned a -> positioned (Nat.iter n _advanceFrame a).
Proof.
  intros Hne Hpos. induction n as [|n IH]; [done|].
  apply (positioned_advance (Nat.iter n _advanceFrame a)); [|done].
  by destruct (iter_advance_static n a) as [-> _].
Qed.

Lemma positioned_same (a b : Animator) :
  samePosition a b -> positioned b -> positioned a.
Proof. intros (Hf & Hc & Hl & Hi & _). unfold positioned. by rewrite Hf, Hc, Hl, Hi. Qed.

(** What a step of the event loop does to the animator object. *)
Lemma perform_this (act : Action) (w w' : World H) :
  perform onFrame act w = Some w' ->
  match act with
  | CallStart now =>
    this w' = set_running true (set_delayCompensation 0 (set_lastTime now (this w)))
  | CallStop => this w' = stop (this w)
  | CallReset => this w' = reset (this w)
  | TimerFires _ => this w' = this w
  | PaintFires _ => exists n, samePosition (this w') (Nat.iter n _advanceFrame (this w))
  end.
Proof.
  destruct act as [now| | |i|clock].
  - by intros [= <-].
  - by intros [= <-].
  - by intros [= <-].
  - cbn. destruct (timers w !! i); [|done]. by intros [= <-].
  - intros Hpaint. apply perform_paint in Hpaint as (n & c & _ & _ & Hrender).
    destruct (_running (this w)) eqn:Hrun.
    2:{ rewrite nextFrameRender_stopped in Hrender by done. injection Hrender as <- _.
        exists 0. by repeat split. }
    rewrite nextFrameRender_running in Hrender by done.
    assert (Hshape : forall w0 : World H, this w0 = this w ->
              _enqueueNextFrame clock w0 = (w', c) ->
              exists n, samePosition (this w') (Nat.iter n _advanceFrame (this w))).
    { intros w0 <- Henq.
      apply enqueueNextFrame_shape in Henq as (negs & _ & _ & Hpos & _). eauto. }
    assert (Hthis : forall w0 : World H,
              _enqueueNextFrame clock w0 = (w', c) -> this w0 = this w ->
              exists n, samePosition (this w') (Nat.iter n _advanceFrame (this w)))
      by (intros; eauto).
    destruct onFrame as [ref|]; [|exact (Hthis _ Hrender eq_refl)].
    destruct (ref _ _ _) as [h|]; [exact (Hthis _ Hrender eq_refl)|].
    injection Hrender as <- _. exists 0. by repeat split.
Qed.

(** Only the frame hook changes the hook's state, and only in a paint
    callback of a running animator. *)
Lemma perform_hookState (act : Action) (w w' : World H) :
  perform onFrame act w = Some w' ->
  hookState w' = hookState w \/
  exists ref,
    onFrame = Some ref /\ _running (this w) = true /\
    ref (_frames (this w) !! _frameIndex (this w)) (_frameIndex (this w)) (hookState w)
      = Some (hookState w').
Proof.
  destruct act as [now| | |i|clock].
  - intros [= <-]. by left.
  - intros [= <-]. by left.
  - intros [= <-]. by left.
  - cbn. destruct (timers w !! i); [|done]. intros [= <-]. by left.
  - intros Hpaint. apply perform_paint in Hpaint as (n & c & _ & _ & Hrender).
    destruct (_running (this w)) eqn:Hrun.
    2:{ rewrite nextFrameRender_stopped in Hrender by done. injection Hrender as <- _.
        by left. }
    rewrite nextFrameRender_running in Hrender by done. cbn in Hrender.
    destruct onFrame as [ref|].
    + destruct (ref _ _ _) as [h|] eqn:Hh.
      * apply enqueueNextFrame_shape in Hrender as (_ & _ & _ & _ & -> & _).
        right. by exists ref.
      * injection Hrender as <- _. by left.
    + apply enqueueNextFrame_shape in Hrender as (_ & _ & _ & _ & -> & _). by left.
Qed.

Lemma reachable_positioned (w : World H) :
  Reachable onFrame w -> _frames (this w) <> [] -> positioned (this w).
Proof.
  induction 1 as [r frames h | w w' act _ IH Hstep]; cbn.
  - intros Hne. split; cbn; [lia|]. left. destruct frames; [done | cbn; lia].
  - destruct (perform_log _ _ _ Hstep) as (Hf & _). rewrite Hf. intros Hne.
    specialize (IH Hne). apply perform_this in Hstep.
    destruct act as [now| | |i|clock].
    + by rewrite Hstep.
    + by rewrite Hstep.
    + rewrite Hstep. split; cbn; [lia|]. left. destruct (_frames (this w)); [done | cbn; lia].
    + by rewrite Hstep.
    + destruct Hstep as [n Hpos]. eapply positioned_same; [exact Hpos|].
      by apply positioned_iter.
Qed.

Lemma reachable_run (acts : list Action) (w w' : World H) :
  Reachable onFrame w -> run onFrame acts w = Some w' -> Reachable onFrame w'.
Proof.
  revert w. induction acts as [|act acts IH]; intros w Hreach; cbn.
  - by intros [= <-].
  - destruct (perform onFrame act w) as [w1|] eqn:Hstep; [|done].
    apply IH. by apply (reach_perform _ w w1 act).
Qed.

(** C10. With a loop count other than 0 and at least one frame, every call
    of the scheduling step ends after a bounded number of iterations: with
    one timeout set, of a non-negative delay, or with the animator stopped
    because its loops are used up.  Each further advance that leaves the
    animator running lowers the pair (loops left, frames left in the pass)
    in the lexicographic order. *)
Theorem C10_scheduling_step_terminates (w : World H) (clock : list Z) :
  Reachable onFrame w ->
  _frames (this w) <> [] -> _loopCount (this w) <> 0 -> _running (this w) = true ->
  budget (this w) < length clock ->
  (exists w', _enqueueNextFrame clock w = (w', Normal) /\
     ((exists d, (0 <= d)%Z /\ timers w' = timers w ++ [d] /\ _running (this w') = true) \/
      (timers w' = timers w /\ _running (this w') = false /\
       _loops (this w') = _loopCount (this w')))) /\
  (forall a : Animator,
     _frames a <> [] -> _loopCount a <> 0 -> _loops a <= _loopCount a ->
     _running (_advanceFrame a) = true ->
     lexLt (remaining (_advanceFrame a)) (remaining a)) /\
  well_founded lexLt.
Proof.
  intros Hreach Hne Hcount Hrun Hclock.
  split; [|split; [intros a Ha Hc Hl Hr; by apply (advance_budget a) | apply lexLt_wf]].
  destruct (reachable_positioned w Hreach Hne) as [Hle _]. specialize (Hle Hcount).
  destruct (advance_budget (this w) Hne Hcount Hle) as [Hon Hoff].
  destruct (advance_static (this w)) as (Hf & Hc & _).
  destruct (enqueueLoop_terminates clock (upd _advanceFrame w)) as (w' & Hloop & Hstop);
    cbn [this upd]; [congruence | congruence | | |].
  - intros Hrun'. destruct (Hon Hrun') as (_ & Hlt & _ & Hle' & Hidx). repeat split; [lia|done..].
  - intros Hrun'. by apply Hoff.
  - exists w'. split; [done|].
    apply enqueueLoop_shape in Hloop as (negs & _ & _ & _ & _ & _ & Hend).
    inversion Hend as [Hr Hlog Htm | d Hr Hd Hlog Htm | |]; subst.
    + right. repeat split; [done..|]. by apply Hstop.
    + left. exists d. by repeat split.
Qed.

(** ** Loop count 0 *)

Lemma advance_running_forever (a : Animator) :
  _loopCount a = 0 -> _running (_advanceFrame a) = _running a.
Proof.
  intros Hzero. destruct (advance_cases a) as [C|[C|C]]; cbn in C; intuition congruence.
Qed.

Lemma iter_advance_running_forever (n : nat) (a : Animator) :
  _loopCount a = 0 -> _running (Nat.iter n _advanceFrame a) = _running a.
Proof.
  intros Hzero. induction n as [|n IH]; [done|].
  change (Nat.iter (S n) _advanceFrame a) with (_advanceFrame (Nat.iter n _advanceFrame a)).
  rewrite advance_running_forever; [done|].
  by destruct (iter_advance_static n a) as [_ ->].
Qed.

(** C4. With loop count 0 no advance clears the running flag, and no step
    of the event loop other than a stop() by the host does: a running
    animator stays running, on a frame that exists. *)
Theorem C4_loop_count_zero_never_stops (w w' : World H) (acts : list Action) :
  Reachable onFrame w ->
  _frames (this w) <> [] -> _loopCount (this w) = 0 ->
  forallb (fun act => negb (isStop act)) acts = true ->
  run onFrame acts w = Some w' ->
  _running (_advanceFrame (this w)) = _running (this w) /\
  (_running (this w) = true -> _running (this w') = true) /\
  _frameIndex (this w') < length (_frames (this w')).
Proof.
  intros Hreach Hne Hzero Hacts Hrun.
  split; [by apply advance_running_forever|].
  assert (Hkeep : _frames (this w') = _frames (this w) /\
                  _loopCount (this w') = _loopCount (this w) /\
                  (_running (this w) = true -> _running (this w') = true)).
  { clear Hreach Hne. revert w Hzero Hrun.
    induction acts as [|act acts IH]; intros w Hzero; cbn.
    - by intros [= <-].
    - cbn in Hacts. apply andb_prop in Hacts as [Hact Hacts].
      destruct (perform onFrame act w) as [w1|] eqn:Hstep; [|done].
      intros Hrest. destruct (perform_log _ _ _ Hstep) as (Hf & Hc & _).
      destruct (IH Hacts w1) as (Hf' & Hc' & Hr'); [congruence | done |].
      split; [congruence|]. split; [congruence|].
      intros Hon. apply Hr'. apply perform_this in Hstep.
      destruct act as [now| | |i|clock]; try done.
      + by rewrite Hstep.
      + by rewrite Hstep.
      + by rewrite Hstep.
      + destruct Hstep as (n & _ & _ & _ & _ & ->).
        by rewrite iter_advance_running_forever. }
  destruct Hkeep as (Hf & Hc & Hr). split; [done|].
  destruct (reachable_positioned w') as [_ [Hin|[Hcount _]]];
    [by apply (reachable_run acts w) | congruence | done | congruence].
Qed.

(** ** A whole playback *)

Lemma passes_length (k n : nat) : length (passes k n) = k * n.
Proof.
  unfold passes. induction k as [|k IH]; [done|].
  change (mjoin (replicate (S k) (seq 0 n))) with (seq 0 n ++ mjoin (replicate k (seq 0 n))).
  rewrite length_app, length_seq, IH. lia.
Qed.

Lemma passes_lookup (k n p i : nat) :
  p < k -> i < n -> passes k n !! (p * n + i) = Some i.
Proof.
  unfold passes. revert p. induction k as [|k IH]; intros p Hp Hi; [lia|].
  change (mjoin (replicate (S k) (seq 0 n))) with (seq 0 n ++ mjoin (replicate k (seq 0 n))).
  destruct p as [|p].
  - rewrite lookup_app_l by (rewrite length_seq; lia). cbn. by apply lookup_seq_lt.
  - rewrite lookup_app_r by (rewrite length_seq; lia). rewrite length_seq.
    replace (S p * n + i - n) with (p * n + i) by lia. apply IH; lia.
Qed.

Lemma playback_idle (clocks : list (list Z)) (w : World H) :
  timers w = [] -> playback onFrame clocks w = Some w.
Proof. intros Htm. destruct clocks; cbn; [done | by rewrite Htm]. Qed.

Lemma playback_log (clocks : list (list Z)) (w w' : World H) :
  playback onFrame clocks w = Some w' ->
  _frames (this w') = _frames (this w) /\ exists l, log w' = log w ++ l.
Proof.
  revert w. induction clocks as [|clock clocks IH]; intros w; cbn [playback].
  - intros [= <-]. split; [done|]. exists []. by rewrite app_nil_r.
  - destruct (timers w) as [|d ds] eqn:Htm.
    { intros [= <-]. split; [done|]. exists []. by rewrite app_nil_r. }
    destruct (perform onFrame (TimerFires 0) w) as [w1|] eqn:Htimer; [|done].
    destruct (perform onFrame (PaintFires clock) w1) as [w2|] eqn:Hpaint; [|done].
    intros Hrest. apply IH in Hrest as (Hf & l & ->).
    apply perform_log in Htimer as (Hf1 & _ & _ & l1 & Hl1 & _).
    apply perform_log in Hpaint as (Hf2 & _ & _ & l2 & Hl2 & _).
    split; [congruence|]. exists (l1 ++ l2 ++ l). by rewrite Hl2, Hl1, <- !app_assoc.
Qed.

(** One round in which no computed delay is negative: frame [i] is
    rendered and the position moves on by one frame. *)
Lemma round_on_time (ref : option Frame.t -> nat -> H -> option H)
    (clock : list Z) (k p i : nat) (w w1 w2 : World H) :
  onFrame = Some ref ->
  (forall frame j h, frame ∈ _frames (this w) -> is_Some (ref (Some frame) j h)) ->
  k <> 0 -> onPass k p i w ->
  perform onFrame (TimerFires 0) w = Some w1 ->
  perform onFrame (PaintFires clock) w1 = Some w2 ->
  Forall (fun d => (0 <= d)%Z) (computedDelays (log w2)) ->
  let n := length (_frames (this w)) in
  renders (log w2) = renders (log w) ++ [i] /\
  ((i + 1 < n /\ onPass k p (i + 1) w2) \/
   (i + 1 = n /\ p < k /\ onPass k (p + 1) 0 w2) \/
   (i + 1 = n /\ p = k /\ finished k w2)).
Proof.
  intros Hhook Hreturns Hk (Hcount & Hrun & Hloops & Hidx & Hin & Hp & d0 & Htm)
         Htimer Hpaint Hdelays n.
  pose proof (round_running clock w w1 w2 Hrun Htimer Hpaint) as Hround.
  cbn zeta in Hround. rewrite Hhook, Hidx in Hround.
  destruct (lookup_lt_is_Some_2 (_frames (this w)) i Hin) as [frame Hframe].
  rewrite Hframe in Hround.
  destruct (Hreturns frame i (hookState w)) as [h Hh];
    [by apply (list_elem_of_lookup_2 _ i)|]. rewrite Hh in Hround.
  destruct Hround as (w0 & c & Hc & Henq & Hthis & _ & Htm0 & _ & Hlog0).
  rewrite Htm in Htm0. cbn in Htm0.
  rewrite (enqueueNextFrame_renders _ _ _ _ Henq), Hlog0, renders_app.
  split; [done|].
  apply enqueueNextFrame_shape in Henq as (negs & Hnegs & _ & Hpos & _ & _ & Hend).
  assert (negs = []) as ->.
  { assert (Hsub : Forall (fun d => (0 <= d)%Z) negs).
    { destruct Hend as [_ Hl _ | d _ _ Hl _ | _ _ Hl _ | _ Hl _];
        rewrite Hl, !computedDelays_app, computedDelays_computed in Hdelays;
        apply Forall_app in Hdelays as [_ Hdelays];
        try apply Forall_app in Hdelays as [Hdelays _]; done. }
    destruct negs as [|d negs]; [done|].
    apply Forall_cons in Hnegs as [Hneg _]. apply Forall_cons in Hsub as [Hpos' _]. lia. }
  change (Nat.iter (S (length (@nil Z))) _advanceFrame (this w0))
    with (_advanceFrame (this w0)) in Hpos.
  rewrite Hthis in Hpos.
  destruct Hpos as (Hf & Hc' & Hl & Hi & Hr).
  destruct (advance_static (this w)) as (Hfa & Hca & _).
  assert (Hn : length (_frames (this w2)) = n) by (unfold n; congruence).
  assert (Hne : _frames (this w) <> []) by (intros E; rewrite E in Hin; cbn in Hin; lia).
  assert (Htimers : (_running (this w2) = true -> exists d, timers w2 = [d]) /\
                    (_running (this w2) = false -> timers w2 = [])).
  { destruct Hend as [Hr' _ Htm' | d Hr' _ _ Htm' | Hr' Hnone _ _ | Hr' _ _].
    - split; [congruence | intros; by rewrite Htm', Htm0].
    - split; [intros; exists d; by rewrite Htm', Htm0 | congruence].
    - exfalso. apply lookup_ge_None in Hnone.
      rewrite Hr in Hr'. pose proof (advance_in_range (this w) Hne Hr') as Hlt.
      rewrite Hi, Hf, Hfa in Hnone. lia.
    - done. }
  destruct Htimers as [Hon Hoff]. revert Hon Hoff.
  unfold onPass, finished. rewrite Hn, Hc', Hl, Hi, Hr, Hca.
  destruct (advance_cases (this w)) as [C|[C|C]]; cbn zeta in C; fold n in C.
  - destruct C as (Hlt & -> & -> & ->). intros Hon _. left. split; [lia|].
    repeat split; try (done || lia). by apply Hon.
  - destruct C as (Hge & _ & Heq & -> & -> & ->). intros _ Hoff. right; right.
    split; [lia|]. split; [lia|]. repeat split; try (done || lia). by apply Hoff.
  - destruct C as (Hge & Hwrap & -> & -> & ->). intros Hon _. right; left.
    split; [lia|]. split; [lia|]. repeat split; try (done || lia). by apply Hon.
Qed.

Lemma playback_on_time (ref : option Frame.t -> nat -> H -> option H)
    (clocks : list (list Z)) (k p i : nat) (w w' : World H) :
  onFrame = Some ref ->
  (forall frame j h, frame ∈ _frames (this w) -> is_Some (ref (Some frame) j h)) ->
  k <> 0 -> onPass k p i w ->
  playback onFrame clocks w = Some w' ->
  Forall (fun d => (0 <= d)%Z) (computedDelays (log w')) ->
  let n := length (_frames (this w)) in
  renders (log w') =
    renders (log w) ++ take (length clocks) (drop (p * n + i) (passes (S k) n)) /\
  (p * n + i + length clocks < S k * n -> _running (this w') = true) /\
  (S k * n <= p * n + i + length clocks -> finished k w').
Proof.
  intros Hhook Hreturns Hk. revert p i w Hreturns.
  induction clocks as [|clock clocks IH]; intros p i w Hreturns Hpass Hplay Hdelays n.
  - injection Hplay as <-. cbn [length take]. rewrite app_nil_r.
    destruct Hpass as (_ & Hrun & _ & _ & Hin & Hp & _). fold n in Hin.
    split; [done|]. split; [done|]. intros Hge. exfalso.
    assert (p * n <= k * n) by (by apply Nat.mul_le_mono_r). lia.
  - pose proof Hpass as (_ & _ & _ & _ & Hin & Hp & d0 & Htm). fold n in Hin.
    cbn [playback] in Hplay. rewrite Htm in Hplay.
    destruct (perform onFrame (TimerFires 0) w) as [w1|] eqn:Htimer; [|done].
    destruct (perform onFrame (PaintFires clock) w1) as [w2|] eqn:Hpaint; [|done].
    destruct (playback_log _ _ _ Hplay) as (_ & l & Hl).
    assert (Hdelays2 : Forall (fun d => (0 <= d)%Z) (computedDelays (log w2))).
    { rewrite Hl, computedDelays_app in Hdelays. by apply Forall_app in Hdelays as [? _]. }
    destruct (round_on_time ref clock k p i w w1 w2) as [Hrender Hnext]; [done..|].
    fold n in Hnext.
    assert (Hf2 : _frames (this w2) = _frames (this w)).
    { apply perform_log in Htimer as (Hf1 & _). apply perform_log in Hpaint as (Hf2 & _).
      congruence. }
    assert (Hn2 : length (_frames (this w2)) = n) by (unfold n; congruence).
    assert (Hpk : p * n <= k * n) by (by apply Nat.mul_le_mono_r).
    assert (Hdrop : drop (p * n + i) (passes (S k) n) =
                    i :: drop (S (p * n + i)) (passes (S k) n)).
    { apply drop_S, passes_lookup; lia. }
    rewrite Hdrop. cbn [length take].
    assert (Hstep : forall p' i', onPass k p' i' w2 -> p' * n + i' = S (p * n + i) ->
      renders (log w') =
        renders (log w) ++ i :: take (length clocks) (drop (S (p * n + i)) (passes (S k) n)) /\
      (p * n + i + S (length clocks) < S k * n -> _running (this w') = true) /\
      (S k * n <= p * n + i + S (length clocks) -> finished k w')).
    { intros p' i' Hpass' Hpos.
      destruct (IH p' i' w2) as (Hr & Hon & Hoff); [by rewrite Hf2 | done..|].
      rewrite Hn2, Hpos in Hr, Hon, Hoff.
      split; [by rewrite Hr, Hrender, <- app_assoc|].
      split; intros; [apply Hon | apply Hoff]; lia. }
    destruct Hnext as [(Hlt & Hpass') | [(Hlast & Hlt & Hpass') | (Hlast & -> & Hfin)]].
    + apply (Hstep p (i + 1)); [done | lia].
    + apply (Hstep (p + 1) 0); [done | lia].
    + pose proof Hfin as (_ & Hoff & _ & _ & Htm2).
      rewrite (playback_idle clocks w2 Htm2) in Hplay. injection Hplay as <-.
      rewrite drop_ge by (rewrite passes_length; lia).
      rewrite take_nil. split; [done|]. split; [|done]. intros Hlt. lia.
Qed.

(** C1, as the code has it.  With at least one frame and a loop count
    k > 0, a playback in which no computed delay is negative renders k + 1
    full passes over the frames and then stops by itself, with the loop
    counter at k.  After [length clocks] rounds the renders are the first
    [length clocks] of those passes. *)
Theorem C1_renders_one_pass_more_than_loop_count
    (ref : option Frame.t -> nat -> H -> option H)
    (r : Reader.t) (frames : list Frame.t) (h : H) (now : Z)
    (clocks : list (list Z)) (w' : World H) :
  onFrame = Some ref ->
  (forall frame j h, frame ∈ frames -> is_Some (ref (Some frame) j h)) ->
  frames <> [] -> Reader.loopCount r <> 0 ->
  playback onFrame clocks (start now (create r frames h)) = Some w' ->
  Forall (fun d => (0 <= d)%Z) (computedDelays (log w')) ->
  let k := Reader.loopCount r in
  let n := length frames in
  renders (log w') = take (length clocks) (passes (S k) n) /\
  (length clocks < S k * n -> running (this w') = true) /\
  (S k * n <= length clocks ->
   running (this w') = false /\ _loops (this w') = k /\
   renders (log w') = passes (S k) n /\ length (renders (log w')) = S k * n /\
   timers w' = []).
Proof.
  intros Hhook Hreturns Hne Hk Hplay Hdelays k n.
  destruct (playback_on_time ref clocks k 0 0 (start now (create r frames h)) w')
    as (Hr & Hon & Hoff); try done.
  { repeat split; cbn; try lia; [|by exists 0%Z]. destruct frames; [done | cbn; lia]. }
  assert (Hr' : renders (log w') = take (length clocks) (passes (S k) n)) by exact Hr.
  assert (Hon' : length clocks < S k * n -> _running (this w') = true) by exact Hon.
  assert (Hoff' : S k * n <= length clocks -> finished k w') by exact Hoff.
  clear Hr Hon Hoff.
  split; [done|]. split; [done|]. intros Hge.
  destruct (Hoff' Hge) as (_ & Hstop & Hloops & _ & Htm).
  rewrite Hr', take_ge by (rewrite passes_length; lia).
  rewrite passes_length. by repeat split.
Qed.

End PlayerFacts.

(** ** The decoder *)

Lemma store_length (buf : list Z) (iv : nat * Z) : length (store buf iv) = length buf.
Proof. apply length_insert. Qed.

Lemma stores_length (stores : list (nat * Z)) (buf : list Z) :
  length (foldl store buf stores) = length buf.
Proof.
  revert buf. induction stores as [|iv stores IH]; intros buf; [done|].
  cbn. by rewrite IH, store_length.
Qed.

Lemma clamp_byte (v : Z) : (0 <= clamp v <= 255)%Z.
Proof. unfold clamp. lia. Qed.

Lemma stores_bytes (stores : list (nat * Z)) (buf : list Z) :
  Forall (fun b => (0 <= b <= 255)%Z) buf ->
  Forall (fun b => (0 <= b <= 255)%Z) (foldl store buf stores).
Proof.
  revert buf. induction stores as [|iv stores IH]; intros buf Hbuf; [done|].
  cbn. apply IH. apply Forall_insert; [done | apply clamp_byte].
Qed.

(** A byte that no store addresses keeps its value; a byte that is
    addressed holds the last value stored there, clamped. *)
Lemma stores_lookup_untouched (stores : list (nat * Z)) (buf : list Z) (j : nat) :
  j ∉ stores.*1 -> foldl store buf stores !! j = buf !! j.
Proof.
  revert buf. induction stores as [|[i v] stores IH]; intros buf Hj; [done|].
  rewrite fmap_cons in Hj. apply not_elem_of_cons in Hj as [Hne Hj].
  cbn [foldl]. rewrite IH by done. unfold store. cbn [fst snd].
  by apply list_lookup_insert_ne.
Qed.

Lemma stores_lookup_last (pre post : list (nat * Z)) (buf : list Z) (j : nat) (v : Z) :
  j < length buf -> j ∉ post.*1 ->
  foldl store buf (pre ++ (j, v) :: post) !! j = Some (clamp v).
Proof.
  intros Hj Hpost. rewrite foldl_app. cbn [foldl].
  rewrite stores_lookup_untouched by done. unfold store at 1. cbn [fst snd].
  apply list_lookup_insert_eq. by rewrite stores_length.
Qed.

(** The loop counting up collects [j], [j+1], ..., [ref-1]. *)
Lemma rangeLoop_up (ref : Z) (fuel : nat) (j : Z) (results : list Z) :
  (0 <= ref)%Z -> (j <= ref)%Z -> Z.to_nat (ref - j) <= fuel ->
  rangeLoop fuel j ref results = Some (results ++ seqZ j (ref - j)).
Proof.
  intros Href. apply Z.leb_le in Href as Hup. revert j results.
  induction fuel as [|fuel IH]; intros j results Hj Hfuel; cbn [rangeLoop]; rewrite Hup.
  - assert (j = ref) as -> by lia. rewrite Z.ltb_irrefl.
    by rewrite seqZ_nil, app_nil_r by lia.
  - destruct (j <? ref)%Z eqn:Hlt.
    + apply Z.ltb_lt in Hlt. rewrite IH by lia.
      rewrite (seqZ_cons j) by lia. rewrite <- app_assoc. cbn [app].
      replace (Z.pred (ref - j)) with (ref - (j + 1))%Z by lia.
      by replace (Z.succ j) with (j + 1)%Z by lia.
    + apply Z.ltb_ge in Hlt. by rewrite seqZ_nil, app_nil_r by lia.
Qed.

(** The loop counting down collects [j], [j-1], ..., [ref+1]. *)
Lemma rangeLoop_down (ref : Z) (fuel : nat) (j : Z) (results : list Z) :
  (ref < 0)%Z -> (ref <= j)%Z -> Z.to_nat (j - ref) <= fuel ->
  rangeLoop fuel j ref results =
  Some (results ++ ((fun i => j - i)%Z <$> seqZ 0 (j - ref))).
Proof.
  intros Href. apply Z.leb_gt in Href as Hdown. revert j results.
  induction fuel as [|fuel IH]; intros j results Hj Hfuel; cbn [rangeLoop];
    rewrite Hdown, Z.gtb_ltb.
  - assert (j = ref) as -> by lia. rewrite Z.ltb_irrefl.
    by rewrite seqZ_nil, app_nil_r by lia.
  - destruct (ref <? j)%Z eqn:Hgt.
    + apply Z.ltb_lt in Hgt. rewrite IH by lia.
      rewrite (seqZ_cons 0 (j - ref)) by lia. rewrite <- app_assoc.
      rewrite fmap_cons, Z.sub_0_r. cbn [app]. do 3 f_equal.
      replace (Z.pred (j - ref)) with (j - 1 - ref)%Z by lia.
      rewrite <- (fmap_add_seqZ 1 0), <- list_fmap_compose.
      apply list_fmap_ext. intros _ i _. cbn. lia.
    + apply Z.ltb_ge in Hgt. by rewrite seqZ_nil, app_nil_r by lia.
Qed.

(** The fuel given in [decodeFramesSync] is enough. *)
Lemma rangeLoop_returns (ref : Z) : is_Some (rangeLoop (Z.abs_nat ref) 0 ref []).
Proof.
  destruct (Z.le_gt_cases 0 ref).
  - rewrite rangeLoop_up by lia. eauto.
  - rewrite rangeLoop_down by lia. eauto.
Qed.

Lemma decodeFrame_Some (reader : Reader.t) (frameIndex : Z) (frame : Frame.t) :
  decodeFrame reader frameIndex = Some frame ->
  let buffer := new_Uint8ClampedArray (Reader.width reader * Reader.height reader * 4) in
  exists frameInfo stores,
    Reader.frameInfo reader frameIndex = Some frameInfo /\
    Reader.decodeAndBlitFrameRGBA reader frameIndex buffer = Some stores /\
    frame = set_pixels (foldl store buffer stores) frameInfo.
Proof.
  unfold decodeFrame.
  destruct (Reader.frameInfo reader frameIndex) as [frameInfo|]; [|done].
  destruct (Reader.decodeAndBlitFrameRGBA _ _ _) as [stores|]; [|done].
  intros [= <-]. by exists frameInfo, stores.
Qed.

(** C9. For a reader with n >= 0 frames that decodes each of them,
    decodeFramesSync returns n frames, in the order of their indices.  The
    i-th frame has the metadata that the reader gives for frame i (offset,
    size, delay, disposal) and a pixel array of its own: the reader is handed
    a new array of width * height * 4 zero bytes, the size of the whole GIF,
    and the frame's pixels are that array after the reader's stores for
    frame i.  A byte the reader did not store to is 0; a byte it stored to
    holds the last value stored there, clamped to 0..255. *)
Theorem C9_decodeFramesSync_decodes_every_frame_in_order (reader : Reader.t) :
  let size := Reader.width reader * Reader.height reader * 4 in
  let n := Z.to_nat (Reader.numFrames reader) in
  (0 <= Reader.numFrames reader)%Z ->
  (forall i, i < n ->
     is_Some (Reader.frameInfo reader (Z.of_nat i)) /\
     is_Some (Reader.decodeAndBlitFrameRGBA reader (Z.of_nat i) (replicate size 0%Z))) ->
  exists frames,
    decodeFramesSync reader = Some frames /\ length frames = n /\
    forall i, i < n ->
      exists frame frameInfo stores,
        frames !! i = Some frame /\
        Reader.frameInfo reader (Z.of_nat i) = Some frameInfo /\
        Reader.decodeAndBlitFrameRGBA reader (Z.of_nat i) (replicate size 0%Z)
          = Some stores /\
        (Frame.x frame = Frame.x frameInfo /\ Frame.y frame = Frame.y frameInfo /\
         Frame.width frame = Frame.width frameInfo /\
         Frame.height frame = Frame.height frameInfo /\
         Frame.delay frame = Frame.delay frameInfo /\
         Frame.disposal frame = Frame.disposal frameInfo) /\
        Frame.pixels frame =
          foldl (fun pixels iv => <[iv.1 := Z.max 0 (Z.min 255 iv.2)]> pixels)
                (replicate size 0%Z) stores /\
        length (Frame.pixels frame) = size /\
        (forall j, j < size -> j ∉ stores.*1 -> Frame.pixels frame !! j = Some 0%Z) /\
        (forall pre post j v,
           stores = pre ++ (j, v) :: post -> j ∉ post.*1 -> j < size ->
           Frame.pixels frame !! j = Some (Z.max 0 (Z.min 255 v))) /\
        Forall (fun b => (0 <= b <= 255)%Z) (Frame.pixels frame).
Proof.
  intros size n Hn Hreader. unfold decodeFramesSync.
  rewrite rangeLoop_up by lia. cbn [app]. rewrite Z.sub_0_r.
  assert (Hall : Forall (is_Some ∘ decodeFrame reader) (seqZ 0 (Reader.numFrames reader))).
  { apply Forall_lookup. intros i j Hj. apply lookup_seqZ in Hj as [-> Hi].
    rewrite Z.add_0_l. unfold compose.
    destruct (Hreader i) as [[frameInfo Hinfo] [stores Hstores]]; [lia|].
    unfold decodeFrame, new_Uint8ClampedArray. fold size. rewrite Hinfo, Hstores. eauto. }
  apply mapM_is_Some_2 in Hall as [frames Hframes].
  exists frames. split; [done|].
  apply mapM_Some_1 in Hframes.
  assert (Hlen : length frames = n).
  { apply Forall2_length in Hframes. rewrite length_seqZ in Hframes. done. }
  split; [done|]. intros i Hi.
  destruct (lookup_lt_is_Some_2 frames i) as [frame Hframe]; [lia|].
  assert (Hj : seqZ 0 (Reader.numFrames reader) !! i = Some (Z.of_nat i)).
  { by rewrite lookup_seqZ_lt by lia. }
  pose proof (Forall2_lookup_lr _ _ _ _ _ _ Hframes Hj Hframe) as Hdecode.
  apply decodeFrame_Some in Hdecode as (frameInfo & stores & Hinfo & Hstores & ->).
  fold size in Hstores.
  eexists _, frameInfo, stores. split; [exact Hframe|].
  split; [exact Hinfo|]. split; [exact Hstores|].
  split; [by repeat split|]. split; [done|].
  change (Frame.pixels (set_pixels ?p _)) with p.
  split.
  { unfold new_Uint8ClampedArray. by rewrite stores_length, length_replicate. }
  split.
  { intros j Hlt Hnot. rewrite stores_lookup_untouched by done.
    by apply lookup_replicate_2. }
  split.
  { intros pre post j v -> Hnot Hlt. apply stores_lookup_last; [|done].
    unfold new_Uint8ClampedArray. by rewrite length_replicate. }
  apply stores_bytes. unfold new_Uint8ClampedArray. by apply Forall_replicate.
Qed.

(** ** The default frame hook *)

Section DefaultHookFacts.
Variables Canvas ImageData : Type.
Variable clearRect : Canvas -> Canvas.
Variable getImageData : Canvas -> ImageData.
Variable putImageData : ImageData -> Canvas -> Canvas.
Variable drawImage : BufferCanvas -> Z -> Z -> Canvas -> Canvas.
Variable onDrawFrame : option (Canvas -> Frame.t -> BufferCanvas -> nat -> Canvas).
Variables gifWidth gifHeight : nat.

Local Abbreviation State := (HookState Canvas ImageData).
Local Abbreviation hook :=
  (defaultOnFrame Canvas ImageData clearRect getImageData putImageData drawImage
                  onDrawFrame gifWidth gifHeight).
Local Abbreviation draw := (installedOnDrawFrame Canvas drawImage onDrawFrame).
Local Abbreviation effect := (disposerEffect Canvas ImageData clearRect putImageData).
Local Abbreviation pendingAfter := (installed Canvas ImageData getImageData).

(** What one call of the hook does, in order: the pending disposal, the
    snapshot if the frame asks for one, the draw. *)
Lemma defaultOnFrame_Some (frame : Frame.t) (i : nat) (s s' : State) :
  hook (Some frame) i s = Some s' ->
  let before := effect (disposeFrame s) (canvas s) in
  exists buffer,
    buffers s' !! i = Some buffer /\
    (buffers s !! i = None -> createBufferCanvas frame gifWidth gifHeight = Some buffer) /\
    (forall b, buffers s !! i = Some b -> buffer = b) /\
    ops s' = ops s ++ disposerOps (disposeFrame s) ++ snapshotOps frame
                           ++ [DidDrawFrame i] /\
    disposeFrame s' = pendingAfter frame before /\
    canvas s' = draw before frame buffer i.
Proof.
  unfold defaultOnFrame.
  destruct (match buffers s !! i with Some b => Some b | None => _ end)
    as [buffer|] eqn:Hbuffer; [|done].
  intros [= <-]. exists buffer.
  split.
  { destruct (disposeFrame s) as [[|saved]|], (Frame.disposal frame) as [|[|[|[|?]]]];
      cbn; apply lookup_insert_eq. }
  split; [by intros Hnone; rewrite Hnone in Hbuffer|].
  split; [intros b Hb; rewrite Hb in Hbuffer; congruence|].
  unfold installed, snapshotOps.
  destruct (disposeFrame s) as [[|saved]|], (Frame.disposal frame) as [|[|[|[|?]]]];
    cbn; rewrite <- ?app_assoc; done.
Qed.

(** With the calls on the target context returning, the hook returns on
    every frame whose pixels fit the image data of a GIF of non-zero size. *)
Lemma defaultOnFrame_returns (frame : Frame.t) (i : nat) (s : State) :
  gifWidth <> 0 -> gifHeight <> 0 ->
  length (Frame.pixels frame) <= gifWidth * gifHeight * 4 ->
  is_Some (hook (Some frame) i s).
Proof.
  intros Hw Hh Hfit. unfold defaultOnFrame, createBufferCanvas.
  apply Nat.eqb_neq in Hw, Hh. apply Nat.leb_le in Hfit. rewrite Hw, Hh, Hfit.
  destruct (buffers s !! i); eauto.
Qed.

(** C8. There is one pending disposal at a time.  What frame N leaves
    pending (a clear of the canvas for disposal 2; for disposal 3 the restore
    of the canvas as it was just before frame N was drawn) is not run while
    frame N is processed: it is run while the next rendered frame is
    processed, before that frame is drawn. *)
Theorem C8_disposal_runs_before_next_draw
    (frameN frameM : Frame.t) (i j : nat) (s sN sM : State) :
  hook (Some frameN) i s = Some sN ->
  hook (Some frameM) j sN = Some sM ->
  let beforeN := effect (disposeFrame s) (canvas s) in
  let pending := pendingAfter frameN beforeN in
  let beforeM := effect pending (canvas sN) in
  disposeFrame sN = pending /\
  ops sN = ops s ++ disposerOps (disposeFrame s) ++ snapshotOps frameN
                         ++ [DidDrawFrame i] /\
  ops sM = ops sN ++ disposerOps pending ++ snapshotOps frameM
                          ++ [DidDrawFrame j] /\
  (exists buffer, buffers sN !! i = Some buffer /\
                  canvas sN = draw beforeN frameN buffer i) /\
  (exists buffer, buffers sM !! j = Some buffer /\
                  canvas sM = draw beforeM frameM buffer j) /\
  disposeFrame sM = pendingAfter frameM beforeM /\
  match Frame.disposal frameN with
  | 2 => pending = Some (ClearCanvas) /\ beforeM = clearRect (canvas sN)
  | 3 => pending = Some (RestoreSaved (getImageData beforeN)) /\
         beforeM = putImageData (getImageData beforeN) (canvas sN)
  | _ => pending = None /\ beforeM = canvas sN
  end.
Proof.
  intros HN HM beforeN pending beforeM.
  apply defaultOnFrame_Some in HN as (bN & HbN & _ & _ & HopsN & HdN & HcN).
  apply defaultOnFrame_Some in HM as (bM & HbM & _ & _ & HopsM & HdM & HcM).
  cbn zeta in *. fold beforeN in HdN, HcN. fold pending in HdN.
  rewrite HdN in HopsM, HdM, HcM. fold beforeM in HdM, HcM.
  split; [done|]. split; [done|]. split; [done|].
  split; [by exists bN|]. split; [by exists bM|]. split; [done|].
  unfold beforeM, pending, installed.
  by destruct (Frame.disposal frameN) as [|[|[|[|?]]]].
Qed.

End DefaultHookFacts.

(** * Examples on concrete animations *)

Lemma paintedHook_returns (frames : list Frame.t) :
  Forall (fun frame => length (Frame.pixels frame) <= 4) frames ->
  forall frame j h, frame ∈ frames -> is_Some (paintedHook (Some frame) j h).
Proof.
  intros Hfit frame j h Hin. apply defaultOnFrame_returns; [done..|].
  rewrite Forall_forall in Hfit. by apply Hfit.
Qed.

(** Three frames, loop count 1, every paint callback on time: six renders,
    then the animator has stopped by itself. *)
Lemma C1_witness :
  let w0 := start 0 (create (demoReader 1 3) threeFrames blank) in
  let w' := default w0 (playback (Some paintedHook) (onTime 6) w0) in
  renders (log w') = [0; 1; 2; 0; 1; 2] /\ running (this w') = false /\ _loops (this w') = 1.
Proof.
  intros w0 w'.
  assert (Hplay : playback (Some paintedHook) (onTime 6) w0 = Some w')
    by (vm_compute; reflexivity).
  assert (Hdelays : Forall (fun d => (0 <= d)%Z) (computedDelays (log w')))
    by (vm_compute; repeat constructor; discriminate).
  destruct (C1_renders_one_pass_more_than_loop_count
              (Some paintedHook) paintedHook (demoReader 1 3) threeFrames blank 0
              (onTime 6) w' eq_refl
              (paintedHook_returns threeFrames ltac:(repeat constructor))
              ltac:(discriminate) ltac:(discriminate) Hplay Hdelays)
    as (_ & _ & Hstop).
  destruct Hstop as (Hoff & Hloops & Hrenders & _); [vm_compute; lia|].
  split; [exact Hrenders|]. by split.
Defined.

(** C1 as the spec states it fails on three frames with loop count 1: after
    one full pass (3 renders) the animator is still running with a timeout
    pending, and it stops only after 6 renders. *)
Lemma C1_counterexample_three_frames_loop_once :
  let w0 := start 0 (create (demoReader 1 3) threeFrames blank) in
  let summary (w : World (HookState (list nat) (list nat))) :=
    (renders (log w), running (this w), _loops (this w), timers w,
     forallb (fun d => 0 <=? d)%Z (computedDelays (log w))) in
  summary <$> playback (Some paintedHook) (onTime 3) w0
    = Some ([0; 1; 2], true, 1, [100%Z], true) /\
  summary <$> playback (Some paintedHook) (onTime 6) w0
    = Some ([0; 1; 2; 0; 1; 2], false, 1, [], true) /\
  ~ (forall clocks w',
       playback (Some paintedHook) clocks w0 = Some w' ->
       Forall (fun d => (0 <= d)%Z) (computedDelays (log w')) ->
       running (this w') = false ->
       renders (log w') = passes 1 3).
Proof.
  intros w0 summary. split; [by vm_compute|]. split; [by vm_compute|].
  intros Hclaim.
  specialize (Hclaim (onTime 6) (default w0 (playback (Some paintedHook) (onTime 6) w0))).
  assert (Hrenders : [0; 1; 2; 0; 1; 2] = passes 1 3); [|discriminate Hrenders].
  apply Hclaim.
  - by vm_compute.
  - vm_compute. repeat constructor; discriminate.
  - by vm_compute.
Qed.

(** A paint callback that runs 250 ms late skips two frames and sets a
    timeout of 49 ms for the third. *)
Lemma C2_witness :
  let acts := [CallStart 0; TimerFires 0; PaintFires [0]; TimerFires 0;
               PaintFires [350; 350; 351]]%Z in
  let w0 := create (demoReader 0 3) threeFrames blank in
  let w := default w0 (run (Some paintedHook) acts w0) in
  computedDelays (log w) = [100; -150; -50; 49]%Z /\
  renders (log w) = [0; 1] /\ _frameIndex (this w) = 1 /\
  Forall (fun d => (0 <= d)%Z) (timeouts (log w)) /\
  Forall (fun d => (0 <= d)%Z) (timers w).
Proof.
  intros acts w0 w.
  split; [by vm_compute|]. split; [by vm_compute|]. split; [by vm_compute|].
  apply (proj2 (C2_catch_up_skips_until_nonnegative (Some paintedHook) w [])).
  apply (reachable_run (Some paintedHook) acts w0); [apply reach_create | by vm_compute].
Defined.

(** C3 fails on one frame with loop count 1.  The second tick uses up the
    loops: the animator stops with the frame index at 1, the number of
    frames.  A start() after that, without a reset(), hands the undefined
    frame to the default hook, which throws. *)
Theorem C3_auto_stop_leaves_frame_index_out_of_range :
  let w0 := start 0 (create (demoReader 1 1) [frame10 0] blank) in
  let w2 := default w0 (playback (Some paintedHook) (onTime 2) w0) in
  playback (Some paintedHook) (onTime 2) w0 = Some w2 /\
  running (this w2) = false /\ _loops (this w2) = 1 /\
  _frameIndex (this w2) = 1 /\ length (_frames (this w2)) = 1 /\
  _frames (this w2) !! _frameIndex (this w2) = None /\
  (_nextFrameRender (Some paintedHook) [200%Z] (start 200 w2)).2 = Throws.
Proof. intros w0 w2. do 6 (split; [by vm_compute|]). by vm_compute. Qed.

(** Loop count 0: after three ticks, a reset() and a tick that comes 600 ms
    late, the animator is still running. *)
Lemma C4_witness :
  let acts := [TimerFires 0; PaintFires [0]; TimerFires 0; PaintFires [100];
               TimerFires 0; PaintFires [200]; CallReset; TimerFires 0;
               PaintFires [900; 900; 900; 900; 900; 900; 900; 900; 900; 901]]%Z in
  let w := start 0 (create (demoReader 0 3) threeFrames blank) in
  let w' := default w (run (Some paintedHook) acts w) in
  _running (_advanceFrame (this w)) = _running (this w) /\
  (_running (this w) = true -> _running (this w') = true) /\
  _frameIndex (this w') < length (_frames (this w')).
Proof.
  intros acts w w'.
  apply (C4_loop_count_zero_never_stops (Some paintedHook) w w' acts).
  - apply (reach_perform _ (create (demoReader 0 3) threeFrames blank) w (CallStart 0));
      [apply reach_create | reflexivity].
  - discriminate.
  - reflexivity.
  - reflexivity.
  - by vm_compute.
Defined.



(** A stop() and a start() after two renders: the next render is frame 2. *)
Lemma C6_witness :
  let w := default (create (demoReader 0 3) threeFrames blank)
             (run (Some paintedHook)
                  [CallStart 0; TimerFires 0; PaintFires [0%Z]; TimerFires 0;
                   PaintFires [100%Z]]
                  (create (demoReader 0 3) threeFrames blank)) in
  let w2 := default w (playback (Some paintedHook) [[5000%Z]] (start 5000 (upd stop w))) in
  _frameIndex (this w) = 2 /\
  renders (log w) = [0; 1] /\ renders (log w2) = [0; 1; 2] /\
  computedDelays (log w2) = [100; 100; 100]%Z.
Proof.
  intros w w2.
  split; [by vm_compute|]. split; [by vm_compute|]. split; [|by vm_compute].
  apply (C6_start_primes_timing_keeps_position (Some paintedHook) w w2 5000 [5000%Z]).
  by vm_compute.
Defined.

(** Frames with disposal 3, 2 and 0 in a row: the snapshot taken before
    frame 0 is put back before frame 1 is drawn, and the canvas is cleared
    before frame 2 is drawn. *)
Lemma C8_witness :
  let sN := default blank (paintedHook (Some (frame10 3)) 0 blank) in
  let sM := default blank (paintedHook (Some (frame10 2)) 1 sN) in
  let sL := default blank (paintedHook (Some (frame10 0)) 2 sM) in
  ops sN = [DidGetImageData; DidDrawFrame 0] /\
  ops sM = [DidGetImageData; DidDrawFrame 0; DidPutImageData []; DidDrawFrame 1] /\
  ops sL = ops sM ++ [DidClearRect; DidDrawFrame 2] /\
  canvas sN = [0] /\ canvas sM = [1] /\ canvas sL = [2].
Proof.
  intros sN sM sL.
  destruct (C8_disposal_runs_before_next_draw
              (list nat) (list nat) (fun _ => []) (fun ctx => ctx) (fun saved _ => saved)
              (fun _ _ _ ctx => ctx) (Some (fun ctx _ _ i => ctx ++ [i])) 1 1
              (frame10 3) (frame10 2) 0 1 blank sN sM eq_refl eq_refl)
    as (_ & HopsN & HopsM & _).
  destruct (C8_disposal_runs_before_next_draw
              (list nat) (list nat) (fun _ => []) (fun ctx => ctx) (fun saved _ => saved)
              (fun _ _ _ ctx => ctx) (Some (fun ctx _ _ i => ctx ++ [i])) 1 1
              (frame10 2) (frame10 0) 1 2 sN sM sL eq_refl eq_refl)
    as (_ & _ & HopsL & _).
  split; [exact HopsN|]. split; [exact HopsM|]. split; [exact HopsL|].
  by vm_compute.
Defined.

(** The animator built from the bytes of the example GIF. *)
Example new_ThinGifler_demo :
  new_ThinGifler (demoReader 1 3) = Some (new_Animator (demoReader 1 3) threeFrames).
Proof. by vm_compute. Qed.

(** The example reader with three frames: each frame has the reader's
    metadata and the pixels left by its two stores, of which the first is
    clamped and the second falls outside the array. *)
Lemma C9_witness :
  exists frames,
    decodeFramesSync (demoReader 1 3) = Some frames /\ length frames = 3 /\
    forall i, i < 3 ->
      exists frame,
        frames !! i = Some frame /\
        Frame.width frame = 1 /\ Frame.height frame = 1 /\ Frame.delay frame = 10%Z /\
        Frame.pixels frame = [0; 0; 0; 255]%Z.
Proof.
  destruct (C9_decodeFramesSync_decodes_every_frame_in_order (demoReader 1 3))
    as (frames & Hdecode & Hlen & Hall).
  - cbn. lia.
  - intros i Hi. cbn in Hi.
    destruct i as [|[|[|i]]]; [by split; eexists..|lia].
  - exists frames. split; [exact Hdecode|]. split; [exact Hlen|].
    intros i Hi.
    destruct (Hall i Hi)
      as (frame & frameInfo & stores & Hframe & Hinfo & Hstores & Hmeta & Hpixels & _).
    exists frame. split; [exact Hframe|].
    destruct Hmeta as (_ & _ & Hw & Hh & Hd & _).
    injection Hstores as <-.
    destruct i as [|[|[|i]]]; [injection Hinfo as <-; by rewrite Hw, Hh, Hd, Hpixels..|lia].
Defined.

(** Three frames, loop count 1, and a clock far ahead: the scheduling step
    ends. *)
Lemma C10_witness :
  let w := start 0 (create (demoReader 1 3) threeFrames blank) in
  let clock := replicate 8 1000%Z in
  exists w', _enqueueNextFrame clock w = (w', Normal) /\
    ((exists d, (0 <= d)%Z /\ timers w' = timers w ++ [d] /\ _running (this w') = true) \/
     (timers w' = timers w /\ _running (this w') = false /\
      _loops (this w') = _loopCount (this w'))).
Proof.
  intros w clock.
  apply (C10_scheduling_step_terminates (Some paintedHook) w clock).
  - apply (reach_perform _ (create (demoReader 1 3) threeFrames blank) w (CallStart 0));
      [apply reach_create | reflexivity].
  - discriminate.
  - discriminate.
  - reflexivity.
  - vm_compute. lia.
Defined.

(** * Further properties of the scheduler *)

Lemma delaysFrom_same (m : nat) (a b : Animator) :
  samePosition a b -> delaysFrom m a = delaysFrom m b.
Proof.
  revert a b. induction m as [|m IH]; intros a b Hab; [done|].
  cbn [delaysFrom]. rewrite (IH _ _ (samePosition_advance a b Hab)).
  destruct Hab as (Hf & _ & _ & Hi & _). unfold frameDelayAt. by rewrite Hf, Hi.
Qed.

Lemma due_advance (a : Animator) : due (_advanceFrame a) = due a.
Proof. unfold due. by destruct (advance_static a) as (_ & _ & _ & _ & -> & ->). Qed.

Section SchedulerExtras.
Context {H : Type}.
Variable onFrame : option (option Frame.t -> nat -> H -> option H).

Lemma enqueueLoop_schedule (clock : list Z) (w w' : World H) (c : Completion) :
  enqueueLoop clock w = (w', c) ->
  exists m,
    m <= length clock /\
    computedDelays (log w') =
      computedDelays (log w) ++ against (due (this w)) (delaysFrom m (this w)) clock /\
    due (this w') = (due (this w) + sumZ (delaysFrom m (this w)))%Z /\
    (c = Normal -> _running (this w') = true ->
     exists d, timers w' = timers w ++ [d] /\
               (_lastTime (this w') + d)%Z = due (this w')).
Proof.
  revert w. induction clock as [|now clock IH]; intros w; cbn [enqueueLoop].
  - destruct (_running (this w)) eqn:Hrun; cbn; intros [= <- <-]; exists 0; cbn;
      rewrite app_nil_r, Z.add_0_r; (do 3 (split; [done || lia|])); intros; congruence.
  - destruct (_running (this w)) eqn:Hrun; cbn [negb].
    2:{ intros [= <- <-]. exists 0. cbn. rewrite app_nil_r, Z.add_0_r.
        do 3 (split; [done || lia|]). intros; congruence. }
    destruct (_frames (this w) !! _frameIndex (this w)) as [frame|] eqn:Hframe.
    2:{ intros [= <- <-]. exists 0. cbn. rewrite app_nil_r, Z.add_0_r.
        split; [lia|]. split; [done|]. split; [unfold due; cbn; lia|]. intros; congruence. }
    cbn zeta.
    match goal with |- context [(?d <? 0)%Z] => set (actualDelay := d) end.
    assert (Hfd : frameDelayAt (this w) = (Frame.delay frame * 10)%Z)
      by (unfold frameDelayAt; by rewrite Hframe).
    assert (Hactual : actualDelay = (due (this w) + frameDelayAt (this w) - now)%Z)
      by (rewrite Hfd; unfold actualDelay, due; cbn; lia).
    destruct (actualDelay <? 0)%Z eqn:Hneg.
    + match goal with |- enqueueLoop _ ?x = _ -> _ => set (w1 := x) end.
      intros Hloop. apply IH in Hloop as (m & Hm & Hlog & Hdue & Hsched).
      assert (Hdue1 : due (this w1) = (due (this w) + frameDelayAt (this w))%Z).
      { unfold w1. cbn [this upd emit]. rewrite due_advance, Hfd. unfold due. cbn. lia. }
      assert (Hfrom : delaysFrom m (this w1) = delaysFrom m (_advanceFrame (this w))).
      { apply delaysFrom_same. unfold w1. cbn [this upd emit].
        apply samePosition_advance. by repeat split. }
      exists (S m). cbn [length delaysFrom against sumZ foldr].
      split; [lia|]. split.
      { rewrite Hlog, Hdue1, Hfrom. unfold w1. cbn [log upd emit].
        rewrite computedDelays_app, <- app_assoc, Hactual. done. }
      split.
      { rewrite Hdue, Hdue1, Hfrom. unfold sumZ. lia. }
      intros Hc Hr. destruct (Hsched Hc Hr) as (d & Htm & Hd). by exists d.
    + intros [= <- <-]. exists 1. cbn [length delaysFrom against sumZ foldr].
      split; [lia|]. split.
      { cbn [log setTimeout emit upd set_timers]. rewrite !computedDelays_app.
        cbn. rewrite app_nil_r, Hactual. done. }
      split; [rewrite Hfd; unfold due; cbn; lia|].
      intros _ _. exists actualDelay. split; [done|].
      unfold actualDelay, due. cbn. lia.
Qed.

(** X1. The scheduling step keeps an ideal schedule that the clock cannot
    shift: every frame it passes is due exactly its nominal delay after the
    one before, counted from the moment start() was called.  The delays it
    computes are the times left, at each clock reading, until the frame then
    looked at is due; and the timeout it sets ends exactly when the frame it
    settled on is due. *)
Theorem X1_timeout_ends_when_the_frame_is_due (w : World H) (clock : list Z) (now : Z) :
  let w' := (_enqueueNextFrame clock w).1 in
  due (this (start now w)) = now /\
  exists m,
    m <= length clock /\
    computedDelays (log w') =
      computedDelays (log w) ++
      against (due (this w)) (delaysFrom m (_advanceFrame (this w))) clock /\
    due (this w') = (due (this w) + sumZ (delaysFrom m (_advanceFrame (this w))))%Z /\
    ((_enqueueNextFrame clock w).2 = Normal -> _running (this w') = true ->
     exists d, timers w' = timers w ++ [d] /\
               (_lastTime (this w') + d)%Z = due (this w')).
Proof.
  split; [unfold due; cbn; lia|].
  destruct (_enqueueNextFrame clock w) as [w' c] eqn:Henq. cbn [fst snd].
  unfold _enqueueNextFrame in Henq.
  apply enqueueLoop_schedule in Henq as (m & Hm & Hlog & Hdue & Hsched).
  cbn [this upd log timers] in Hlog, Hdue, Hsched. rewrite due_advance in Hlog, Hdue.
  exists m. by repeat split.
Qed.

(** What a paint callback leaves pending: the request that ran is gone, and
    at most one timeout has been added. *)
Lemma perform_paint_pending (clock : list Z) (w w' : World H) :
  perform onFrame (PaintFires clock) w = Some w' ->
  frameRequests w = S (frameRequests w') /\
  (timers w' = timers w \/ exists d, timers w' = timers w ++ [d]).
Proof.
  intros Hpaint. apply perform_paint in Hpaint as (n & c & Hreq & _ & Hrender).
  destruct (_running (this w)) eqn:Hrun.
  2:{ rewrite nextFrameRender_stopped in Hrender by done. injection Hrender as <- _.
      split; [done | by left]. }
  rewrite nextFrameRender_running in Hrender by done.
  assert (Hshape : forall w0 : World H,
            _enqueueNextFrame clock w0 = (w', c) ->
            frameRequests w' = frameRequests w0 /\
            (timers w' = timers w0 \/ exists d, timers w' = timers w0 ++ [d])).
  { intros w0 Henq.
    apply enqueueNextFrame_shape in Henq as (negs & _ & _ & _ & _ & Hfr & Hend).
    split; [done|]. destruct Hend; eauto. }
  destruct onFrame as [ref|].
  - destruct (ref _ _ _) as [h|].
    + apply Hshape in Hrender as [Hfr Htm]. cbn in Hfr, Htm. split; [congruence | done].
    + injection Hrender as <- _. cbn. split; [done | by left].
  - apply Hshape in Hrender as [Hfr Htm]. cbn in Hfr, Htm. split; [congruence | done].
Qed.

Lemma perform_pending (act : Action) (w w' : World H) :
  perform onFrame act w = Some w' ->
  pending w' <= pending w + (if isStart act then 1 else 0) /\
  (isStart act = true -> pending w' = pending w + 1).
Proof.
  unfold pending. destruct act as [now| | |i|clock].
  - intros [= <-]. cbn. rewrite length_app. cbn. lia.
  - intros [= <-]. cbn. lia.
  - intros [= <-]. cbn. lia.
  - cbn. destruct (timers w !! i) as [d|] eqn:Hi; [|done]. intros [= <-]. cbn.
    rewrite length_delete by eauto. apply lookup_lt_Some in Hi. lia.
  - intros Hpaint. apply perform_paint_pending in Hpaint as [Hfr [-> | [d ->]]];
      rewrite ?length_app; cbn; lia.
Qed.

(** X2. No callback is ever leaked or multiplied.  Each start() adds exactly
    one pending callback (it cancels none); every other step of the event
    loop leaves the number of pending callbacks as it is or lowers it.  So
    over any run their number grows by at most the number of start()s. *)
Theorem X2_pending_callbacks_bounded_by_starts (acts : list Action) (w w' : World H) :
  run onFrame acts w = Some w' ->
  pending w' <= pending w + length (filter (fun act => isStart act = true) acts) /\
  (forall now, pending (start now w) = pending w + 1).
Proof.
  intros Hrun. split; [|intros now; unfold pending; cbn; rewrite length_app; cbn; lia].
  revert w Hrun. induction acts as [|act acts IH]; intros w; cbn [run].
  - intros [= <-]. cbn. lia.
  - destruct (perform onFrame act w) as [w1|] eqn:Hstep; [|done].
    intros Hrest. apply IH in Hrest. apply perform_pending in Hstep as [Hstep _].
    rewrite filter_cons. destruct (isStart act) eqn:Hact.
    + rewrite decide_True by done. cbn [length]. lia.
    + rewrite decide_False by done. lia.
Qed.

(** X3. When the frame hook throws, the paint callback ends there: the frame
    index is not advanced, no timeout is set, and the running flag stays set
    although the tick chain has ended. *)
Theorem X3_hook_failure_halts_the_chain
    (ref : option Frame.t -> nat -> H -> option H) (clock : list Z) (w : World H) (n : nat) :
  onFrame = Some ref ->
  _running (this w) = true ->
  frameRequests w = S n ->
  ref (_frames (this w) !! _frameIndex (this w)) (_frameIndex (this w)) (hookState w) = None ->
  exists w',
    perform onFrame (PaintFires clock) w = Some w' /\
    this w' = this w /\ running (this w') = true /\
    timers w' = timers w /\ frameRequests w' = n /\ hookState w' = hookState w /\
    log w' = log w ++ [Rendered (_frameIndex (this w))].
Proof.
  intros Hhook Hrun Hreq Hthrows. cbn [perform]. rewrite Hreq.
  rewrite nextFrameRender_running by done. rewrite Hhook. cbn.
  rewrite Hthrows. eexists. split; [done|]. by repeat split.
Qed.

Lemma run_static (acts : list Action) (w w' : World H) :
  run onFrame acts w = Some w' ->
  _frames (this w') = _frames (this w) /\ _loopCount (this w') = _loopCount (this w).
Proof.
  revert w. induction acts as [|act acts IH]; intros w; cbn [run].
  - by intros [= <-].
  - destruct (perform onFrame act w) as [w1|] eqn:Hstep; [|done].
    intros Hrest. apply IH in Hrest as [-> ->].
    by apply perform_log in Hstep as (-> & -> & _).
Qed.

(** X4. Whatever the host and the event loop do after the constructor, the
    animator keeps its frames and its loop count; the loop counter never
    passes a non-zero loop count; and the frame index is that of a frame
    that exists, unless the loops are used up.  With loop count 0 the frame
    index is always in range. *)
Theorem X4_position_invariant
    (r : Reader.t) (frames : list Frame.t) (h : H) (acts : list Action) (w : World H) :
  frames <> [] ->
  run onFrame acts (create r frames h) = Some w ->
  _frames (this w) = frames /\ _loopCount (this w) = Reader.loopCount r /\
  (_loopCount (this w) <> 0 -> _loops (this w) <= _loopCount (this w)) /\
  (_frameIndex (this w) < length frames \/
   (_loopCount (this w) <> 0 /\ _loops (this w) = _loopCount (this w))) /\
  (_loopCount (this w) = 0 -> _frameIndex (this w) < length frames).
Proof.
  intros Hne Hrun.
  destruct (run_static _ _ _ Hrun) as [Hf Hc]. cbn in Hf, Hc.
  split; [done|]. split; [done|].
  destruct (reachable_positioned onFrame w) as [Hle Hpos].
  - apply (reachable_run onFrame acts (create r frames h)); [apply reach_create | done].
  - by rewrite Hf.
  - rewrite Hf in Hpos. split; [done|]. split; [done|].
    intros Hzero. destruct Hpos as [Hin | [Hnz _]]; [done | congruence].
Qed.

(** X7. Nothing happens before the first start(): from the constructor on,
    whatever else the host calls, no frame is rendered, no hook runs and no
    callback is pending. *)
Theorem X7_nothing_before_start
    (r : Reader.t) (frames : list Frame.t) (h : H) (acts : list Action) (w : World H) :
  forallb (fun act => negb (isStart act)) acts = true ->
  run onFrame acts (create r frames h) = Some w ->
  running (this w) = false /\ renders (log w) = [] /\ timeouts (log w) = [] /\
  hookState w = h /\ timers w = [] /\ frameRequests w = 0.
Proof.
  intros Hacts Hrun.
  destruct (stopped_stays_silent onFrame acts (create r frames h) w)
    as (Hoff & Hrenders & Hhook & Htimeouts & Hpending); [done..|].
  cbn in Hrenders, Hhook, Htimeouts, Hpending.
  repeat split; try done.
  - destruct (timers w); [done | cbn in Hpending; lia].
  - lia.
Qed.

(** X6. A reset() during playback takes effect at the next paint callback:
    it renders frame 0. *)
Theorem X6_reset_while_running_shows_frame_0 (w w2 : World H) (clock : list Z) :
  _running (this w) = true ->
  playback onFrame [clock] (upd reset w) = Some w2 ->
  timers w <> [] ->
  renders (log w2) =
  renders (log w) ++ match onFrame with Some _ => [0] | None => [] end.
Proof.
  intros Hrun Hplay Htm. cbn [playback] in Hplay.
  destruct (timers (upd reset w)) as [|d0 ds] eqn:Hd; [by cbn in Hd|]. clear d0 ds Hd.
  destruct (perform onFrame (TimerFires 0) _) as [w1|] eqn:Htimer; [|done].
  destruct (perform onFrame (PaintFires clock) w1) as [w3|] eqn:Hpaint; [|done].
  injection Hplay as ->.
  pose proof (round_running onFrame clock (upd reset w) _ _ Hrun Htimer Hpaint) as Hround.
  cbn zeta in Hround.
  destruct onFrame as [ref|].
  - destruct (ref _ _ _) as [h|].
    + destruct Hround as (w0 & c & _ & Henq & _ & _ & _ & _ & Hlog).
      rewrite (enqueueNextFrame_renders _ _ _ _ Henq), Hlog, renders_app. done.
    + destruct Hround as (_ & _ & ->). by rewrite renders_app.
  - destruct Hround as (w0 & c & _ & Henq & _ & _ & _ & _ & Hlog).
    rewrite (enqueueNextFrame_renders _ _ _ _ Henq), Hlog, renders_app. done.
Qed.

(** X5. A finished animation is replayed in full by reset() and start():
    from the state in which the loops are used up, a playback in which no
    delay is negative renders loop count + 1 passes again and stops. *)
Theorem X5_reset_and_start_replay_a_finished_animation
    (ref : option Frame.t -> nat -> H -> option H)
    (k : nat) (now : Z) (clocks : list (list Z)) (w w' : World H) :
  onFrame = Some ref ->
  (forall frame j h, frame ∈ _frames (this w) -> is_Some (ref (Some frame) j h)) ->
  k <> 0 -> _frames (this w) <> [] -> finished k w ->
  playback onFrame clocks (start now (upd reset w)) = Some w' ->
  Forall (fun d => (0 <= d)%Z) (computedDelays (log w')) ->
  let n := length (_frames (this w)) in
  renders (log w') = renders (log w) ++ take (length clocks) (passes (S k) n) /\
  (length clocks < S k * n -> running (this w') = true) /\
  (S k * n <= length clocks -> finished k w').
Proof.
  intros Hhook Hreturns Hk Hne (Hcount & Hoff & Hloops & Hidx & Htm) Hplay Hdelays n.
  destruct (playback_on_time onFrame ref clocks k 0 0 (start now (upd reset w)) w')
    as (Hr & Hon & Hstop); try done.
  { repeat split; cbn; try (done || lia).
    - destruct (_frames (this w)); [done | cbn; lia].
    - exists 0%Z. by rewrite Htm. }
  assert (Hlog : renders (log (start now (upd reset w))) = renders (log w)).
  { cbn. rewrite renders_app. apply app_nil_r. }
  rewrite Hlog in Hr. split; [exact Hr|]. split; [exact Hon | exact Hstop].
Qed.

(** X15. With loop count 0 and at least one frame the tick chain never ends
    by itself: every paint callback of a running animator whose hook returns
    sets exactly one timeout, of a non-negative delay, and leaves the
    animator running on a frame that exists. *)
Theorem X15_loop_count_zero_always_schedules_the_next_tick
    (clock : list Z) (w w' : World H) :
  _frames (this w) <> [] -> _loopCount (this w) = 0 -> _running (this w) = true ->
  (forall ref, onFrame = Some ref ->
     is_Some (ref (_frames (this w) !! _frameIndex (this w)) (_frameIndex (this w))
                  (hookState w))) ->
  perform onFrame (PaintFires clock) w = Some w' ->
  exists d, (0 <= d)%Z /\ timers w' = timers w ++ [d] /\
            _running (this w') = true /\
            _frameIndex (this w') < length (_frames (this w')).
Proof.
  intros Hne Hzero Hrun Hreturns Hpaint.
  apply perform_paint in Hpaint as (n & c & _ & Hc & Hrender).
  rewrite nextFrameRender_running in Hrender by done.
  assert (Hshape : forall w0 : World H,
            _enqueueNextFrame clock w0 = (w', c) ->
            this w0 = this w -> timers w0 = timers w ->
            exists d, (0 <= d)%Z /\ timers w' = timers w ++ [d] /\
                      _running (this w') = true /\
                      _frameIndex (this w') < length (_frames (this w'))).
  { intros w0 Henq Hthis Htm.
    apply enqueueNextFrame_shape in Henq as (negs & _ & _ & Hpos & _ & _ & Hend).
    rewrite Hthis in Hpos. destruct Hpos as (Hf & _ & _ & Hi & Hr).
    change (Nat.iter (S (length negs)) _advanceFrame (this w))
      with (_advanceFrame (Nat.iter (length negs) _advanceFrame (this w))) in Hf, Hi, Hr.
    destruct (iter_advance_static (length negs) (this w)) as [Hfn Hcn].
    assert (Hon : _running (this w') = true).
    { rewrite Hr, advance_running_forever by congruence.
      rewrite iter_advance_running_forever by done. done. }
    assert (Hin : _frameIndex (this w') < length (_frames (this w'))).
    { rewrite Hi, Hf. destruct (advance_static (Nat.iter (length negs) _advanceFrame (this w)))
        as (-> & _).
      apply advance_in_range; [congruence | congruence]. }
    destruct Hend as [Hoff _ _ | d _ Hd _ Htm' | _ Hnone _ _ | _ _ _].
    - congruence.
    - exists d. rewrite Htm', Htm. by repeat split.
    - apply lookup_ge_None in Hnone. lia.
    - done. }
  cbn in Hrender. destruct onFrame as [ref|].
  - destruct (Hreturns ref eq_refl) as [h Hh]. rewrite Hh in Hrender.
    exact (Hshape _ Hrender eq_refl eq_refl).
  - exact (Hshape _ Hrender eq_refl eq_refl).
Qed.

Lemma enqueueLoop_never_catches_up (clock : list Z) (w : World H) :
  _loopCount (this w) = 0 ->
  Forall (fun frame => (Frame.delay frame <= 0)%Z) (_frames (this w)) ->
  _running (this w) = true ->
  _frameIndex (this w) < length (_frames (this w)) ->
  Forall (fun now => (due (this w) < now)%Z) clock ->
  exists w', enqueueLoop clock w = (w', Starved) /\ timers w' = timers w /\
             length (log w') = length (log w) + length clock.
Proof.
  revert w. induction clock as [|now clock IH]; intros w Hzero Hdelays Hrun Hin Hclock;
    cbn [enqueueLoop]; rewrite Hrun; cbn [negb].
  { exists w. cbn. split; [done|]. split; [done | lia]. }
  destruct (lookup_lt_is_Some_2 _ _ Hin) as [frame Hframe]. rewrite Hframe. cbn zeta.
  apply Forall_cons in Hclock as [Hnow Hclock].
  assert (Hd : (Frame.delay frame <= 0)%Z).
  { rewrite Forall_lookup in Hdelays. by apply (Hdelays _ _ Hframe). }
  unfold due in Hnow.
  match goal with |- context [(?d <? 0)%Z] => set (actualDelay := d) end.
  assert (Hneg : (actualDelay <? 0)%Z = true).
  { apply Z.ltb_lt. unfold actualDelay. cbn. lia. }
  rewrite Hneg.
  match goal with |- context [enqueueLoop _ (upd _ ?x)] => set (w1 := x) end.
  assert (Hne : _frames (this w1) <> []).
  { cbn. intros E. rewrite E in Hin. cbn in Hin. lia. }
  destruct (advance_static (this w1)) as (Hf & Hc & _ & _ & Hlt & Hcomp).
  destruct (IH (upd _advanceFrame w1)) as (w' & Hloop & Htm & Hlog); cbn [this upd].
  - by rewrite Hc.
  - by rewrite Hf.
  - by rewrite advance_running_forever.
  - rewrite Hf. apply advance_in_range; [done|]. by rewrite advance_running_forever.
  - unfold due. rewrite Hlt, Hcomp. cbn.
    eapply Forall_impl; [exact Hclock|]. cbn. intros t Ht. unfold due in Ht. lia.
  - exists w'. split; [done|]. split; [done|].
    rewrite Hlog. cbn. rewrite length_app. cbn. lia.
Qed.

(** X14. The catch-up loop need not end when the loop count is 0: if no
    frame has a positive delay and the clock is past the time the current
    delay was due, every delay computed is negative and the loop goes on for
    as long as it is given clock readings, one iteration for each, without
    ever setting a timeout. *)
Theorem X14_zero_delays_behind_schedule_never_catch_up (clock : list Z) (w : World H) :
  _frames (this w) <> [] -> _loopCount (this w) = 0 ->
  Forall (fun frame => (Frame.delay frame <= 0)%Z) (_frames (this w)) ->
  _running (this w) = true ->
  Forall (fun now => (due (this w) < now)%Z) clock ->
  exists w', _enqueueNextFrame clock w = (w', Starved) /\ timers w' = timers w /\
             length (log w') = length (log w) + length clock /\
             Forall (fun d => (d < 0)%Z) (drop (length (computedDelays (log w)))
                                               (computedDelays (log w'))).
Proof.
  intros Hne Hzero Hdelays Hrun Hclock. unfold _enqueueNextFrame.
  destruct (advance_static (this w)) as (Hf & Hc & _).
  destruct (enqueueLoop_never_catches_up clock (upd _advanceFrame w))
    as (w' & Hloop & Htm & Hlog); cbn [this upd].
  - by rewrite Hc.
  - by rewrite Hf.
  - by rewrite advance_running_forever.
  - rewrite Hf. apply advance_in_range; [done|]. by rewrite advance_running_forever.
  - by rewrite due_advance.
  - exists w'. split; [done|]. split; [done|]. split; [done|].
    apply enqueueLoop_shape in Hloop as (negs & Hnegs & _ & _ & _ & _ & Hend).
    inversion Hend as [| | |Hon Hlog' Htm']; subst. cbn [log upd] in Hlog'.
    by rewrite Hlog', computedDelays_app, computedDelays_computed, drop_app_length.
Qed.

End SchedulerExtras.

(** * Further properties of the decoder and of the default hook *)

(** Every frame that [decodeFramesSync] returns carries a pixel array of the
    size of the whole GIF. *)
Lemma decodeFramesSync_pixels (reader : Reader.t) (frames : list Frame.t) (frame : Frame.t) :
  decodeFramesSync reader = Some frames -> frame ∈ frames ->
  length (Frame.pixels frame) = Reader.width reader * Reader.height reader * 4.
Proof.
  unfold decodeFramesSync.
  destruct (rangeLoop _ _ _ _) as [results|]; [|done].
  intros Hmap Hin. apply mapM_Some_1 in Hmap.
  apply list_elem_of_lookup in Hin as [i Hi].
  destruct (Forall2_lookup_r _ _ _ _ _ Hmap Hi) as (j & _ & Hdecode).
  apply decodeFrame_Some in Hdecode as (frameInfo & stores & _ & _ & ->).
  cbn. unfold new_Uint8ClampedArray. by rewrite stores_length, length_replicate.
Qed.

(** X11. A frame that fails to decode fails the whole decoding: if the
    reader throws on the metadata or on the pixels of one frame,
    decodeFramesSync returns no frames at all and no animator is built. *)
Theorem X11_one_bad_frame_fails_the_decoding (reader : Reader.t) (i : nat) :
  (Z.of_nat i < Reader.numFrames reader)%Z ->
  Reader.frameInfo reader (Z.of_nat i) = None \/
  Reader.decodeAndBlitFrameRGBA reader (Z.of_nat i)
    (new_Uint8ClampedArray (Reader.width reader * Reader.height reader * 4)) = None ->
  decodeFramesSync reader = None /\ new_ThinGifler reader = None.
Proof.
  intros Hi Hbad.
  assert (Hnone : decodeFramesSync reader = None).
  { unfold decodeFramesSync. rewrite rangeLoop_up by lia. cbn [app]. rewrite Z.sub_0_r.
    apply mapM_None_2, Exists_exists. exists (Z.of_nat i). split.
    - apply elem_of_seqZ. lia.
    - unfold decodeFrame. destruct Hbad as [-> | Hblit]; [done|].
      destruct (Reader.frameInfo reader (Z.of_nat i)); [by rewrite Hblit | done]. }
  split; [done|]. unfold new_ThinGifler. by rewrite Hnone.
Qed.

(** X12. The frame count is a bound to count towards, upwards or downwards:
    with no frames the result is empty, and for a negative count [-n] the
    reader is asked for the frames 0, -1, ..., -(n-1). *)
Theorem X12_frame_count_zero_or_negative (reader : Reader.t) :
  (Reader.numFrames reader <= 0)%Z ->
  decodeFramesSync reader =
  mapM (decodeFrame reader) ((fun i => - i)%Z <$> seqZ 0 (- Reader.numFrames reader)) /\
  (Reader.numFrames reader = 0%Z -> decodeFramesSync reader = Some []).
Proof.
  intros Hle. unfold decodeFramesSync.
  destruct (Z.eq_dec (Reader.numFrames reader) 0%Z) as [Hzero | Hneg].
  - rewrite Hzero. cbn. done.
  - rewrite rangeLoop_down by lia. cbn [app]. split; [|done].
    done.
Qed.

Section DefaultHookExtras.
Variables Canvas ImageData : Type.
Variable clearRect : Canvas -> Canvas.
Variable getImageData : Canvas -> ImageData.
Variable putImageData : ImageData -> Canvas -> Canvas.
Variable drawImage : BufferCanvas -> Z -> Z -> Canvas -> Canvas.
Variable onDrawFrame : option (Canvas -> Frame.t -> BufferCanvas -> nat -> Canvas).

Local Abbreviation hookOf gifWidth gifHeight :=
  (defaultOnFrame Canvas ImageData clearRect getImageData putImageData drawImage
                  onDrawFrame gifWidth gifHeight).

(** The hook throws when it is handed no frame, or when the frame has no
    buffer yet and none can be built for it. *)
Lemma defaultOnFrame_None
    (gifWidth gifHeight : nat) (frame : option Frame.t) (i : nat)
    (s : HookState Canvas ImageData) :
  hookOf gifWidth gifHeight frame i s = None ->
  frame = None \/
  exists f, frame = Some f /\ buffers s !! i = None /\
            createBufferCanvas f gifWidth gifHeight = None.
Proof.
  unfold defaultOnFrame. destruct frame as [f|]; [|by left].
  destruct (buffers s !! i) as [b|] eqn:Hb; [done|].
  destruct (createBufferCanvas f gifWidth gifHeight) eqn:Hcreate; [done|].
  intros _. right. by exists f.
Qed.

(** X8. The frames that decodeFramesSync returns always fit the image data
    of the GIF: when the GIF's width and height are not 0, createBufferCanvas
    called on a decoded frame with the reader's width and height returns, and
    its result is a canvas of the frame's own size whose image data, of the
    size of the GIF, are exactly the frame's pixels, put at minus the frame's
    offset. *)
Theorem X8_decoded_frames_always_fit
    (reader : Reader.t) (frames : list Frame.t) (frame : Frame.t) :
  decodeFramesSync reader = Some frames -> frame ∈ frames ->
  Reader.width reader <> 0 -> Reader.height reader <> 0 ->
  exists buffer,
    createBufferCanvas frame (Reader.width reader) (Reader.height reader) = Some buffer /\
    imageData_data buffer = Frame.pixels frame /\
    imageData_width buffer = Reader.width reader /\
    imageData_height buffer = Reader.height reader /\
    length (imageData_data buffer) = imageData_width buffer * imageData_height buffer * 4 /\
    buffer_width buffer = Frame.width frame /\ buffer_height buffer = Frame.height frame /\
    put_dx buffer = (- Frame.x frame)%Z /\ put_dy buffer = (- Frame.y frame)%Z.
Proof.
  intros Hdecode Hin Hw Hh.
  pose proof (decodeFramesSync_pixels reader frames frame Hdecode Hin) as Hlen.
  apply Nat.eqb_neq in Hw, Hh.
  unfold createBufferCanvas. rewrite Hw, Hh, Hlen, Nat.leb_refl, Nat.sub_diag. cbn.
  eexists. split; [done|]. cbn. rewrite app_nil_r. by repeat split.
Qed.

Lemma defaultOnFrame_buffers
    (gifWidth gifHeight : nat) (frame : Frame.t) (i : nat)
    (s s' : HookState Canvas ImageData) :
  hookOf gifWidth gifHeight (Some frame) i s = Some s' ->
  exists buffer,
    buffers s' = <[i := buffer]> (buffers s) /\
    match buffers s !! i with
    | Some b => buffer = b
    | None => createBufferCanvas frame gifWidth gifHeight = Some buffer
    end.
Proof.
  unfold defaultOnFrame.
  destruct (match buffers s !! i with Some b => Some b | None => _ end)
    as [buffer|] eqn:Hbuffer; [|done].
  intros [= <-]. exists buffer. split.
  - by destruct (disposeFrame s) as [[|saved]|], (Frame.disposal frame) as [|[|[|[|?]]]].
  - destruct (buffers s !! i); [congruence | done].
Qed.

(** X9. A frame's buffer is built on the first render of that frame and
    never again: the hook leaves the buffers of all other frames alone, keeps
    a buffer that exists, and once it has returned on a frame it returns on
    that frame every time, with the buffers unchanged. *)
Theorem X9_buffer_built_once
    (gifWidth gifHeight : nat) (frame : Frame.t) (i : nat)
    (s s1 : HookState Canvas ImageData) :
  hookOf gifWidth gifHeight (Some frame) i s = Some s1 ->
  is_Some (buffers s1 !! i) /\
  (forall j, j <> i -> buffers s1 !! j = buffers s !! j) /\
  (is_Some (buffers s !! i) -> buffers s1 = buffers s) /\
  exists s2, hookOf gifWidth gifHeight (Some frame) i s1 = Some s2 /\
             buffers s2 = buffers s1.
Proof.
  intros Hfirst.
  apply defaultOnFrame_buffers in Hfirst as (buffer & Hb & Hwhich).
  assert (Hi : buffers s1 !! i = Some buffer) by (rewrite Hb; apply lookup_insert_eq).
  split; [by rewrite Hi|].
  split; [intros j Hj; rewrite Hb; by apply lookup_insert_ne|].
  split.
  { intros [b Hcached]. rewrite Hcached in Hwhich. subst b.
    rewrite Hb. by apply insert_id. }
  destruct (hookOf gifWidth gifHeight (Some frame) i s1) as [s2|] eqn:Hsecond.
  - exists s2. split; [done|].
    apply defaultOnFrame_buffers in Hsecond as (b2 & Hb2 & Hwhich2).
    rewrite Hi in Hwhich2. subst b2. rewrite Hb2. by apply insert_id.
  - apply defaultOnFrame_None in Hsecond
      as [? | (f & _ & Hnone & _)]; congruence.
Qed.

(** X10. Disposal 3 is a round trip when putting back a snapshot of the
    whole canvas restores the canvas: the frame rendered after a frame with
    disposal 3 is drawn on exactly the canvas that frame was drawn on. *)
Theorem X10_restore_previous_round_trip
    (gifWidth gifHeight : nat) (frameN frameM : Frame.t) (i j : nat)
    (s sN sM : HookState Canvas ImageData) :
  (forall c c', putImageData (getImageData c) c' = c) ->
  Frame.disposal frameN = 3 ->
  hookOf gifWidth gifHeight (Some frameN) i s = Some sN ->
  hookOf gifWidth gifHeight (Some frameM) j sN = Some sM ->
  let beforeN := disposerEffect Canvas ImageData clearRect putImageData
                   (disposeFrame s) (canvas s) in
  exists bufferN bufferM,
    canvas sN = installedOnDrawFrame Canvas drawImage onDrawFrame beforeN frameN bufferN i /\
    canvas sM = installedOnDrawFrame Canvas drawImage onDrawFrame beforeN frameM bufferM j.
Proof.
  intros Hlaw Hthree HN HM beforeN.
  apply defaultOnFrame_Some in HN as (bN & _ & _ & _ & _ & HdN & HcN).
  apply defaultOnFrame_Some in HM as (bM & _ & _ & _ & _ & _ & HcM).
  cbn zeta in *. exists bN, bM. split; [exact HcN|].
  rewrite HcM, HdN. unfold installed. rewrite Hthree. cbn. by rewrite Hlaw.
Qed.

End DefaultHookExtras.

(** * Properties of the ThinGifler object *)

Section ThinGiflerFacts.
Variables Canvas ImageData : Type.
Variable setSize : nat -> nat -> Canvas -> Canvas.
Variable clearRect : Canvas -> Canvas.
Variable getImageData : Canvas -> ImageData.
Variable putImageData : ImageData -> Canvas -> Canvas.
Variable drawImage : BufferCanvas -> Z -> Z -> Canvas -> Canvas.

Local Abbreviation Gifler := (World (Stage Canvas ImageData)).
Local Abbreviation hookOver :=
  (onFrameOver Canvas ImageData clearRect getImageData putImageData drawImage).
Local Abbreviation hookNow :=
  (onFrameOf Canvas ImageData clearRect getImageData putImageData drawImage).
Local Abbreviation callFrames :=
  (ThinGifler_frames Canvas ImageData setSize drawImage).
Local Abbreviation step :=
  (use Canvas ImageData setSize clearRect getImageData putImageData drawImage).
Local Abbreviation steps :=
  (uses Canvas ImageData setSize clearRect getImageData putImageData drawImage).

Lemma onFrameOver_Some (target gifWidth gifHeight : nat) (frame : option Frame.t) (i : nat)
    (st st' : Stage Canvas ImageData) :
  hookOver target gifWidth gifHeight frame i st = Some st' ->
  onFrameSlot st' = onFrameSlot st /\ onDrawFrameSlot st' = onDrawFrameSlot st /\
  forall c, c <> target -> canvases st' c = canvases st c.
Proof.
  unfold onFrameOver. destruct (defaultOnFrame _ _ _ _ _ _ _ _ _ _ _ _) as [s|]; [|done].
  intros [= <-]. cbn. repeat split. intros c Hc. unfold setCanvas. by rewrite decide_False.
Qed.

Lemma frames_stage (target : nat)
    (onDrawFrame : option (Canvas -> Frame.t -> BufferCanvas -> nat -> Canvas))
    (setCanvasDimesions : bool) (now : Z) (g : Gifler) :
  let g' := callFrames target onDrawFrame setCanvasDimesions now g in
  this g' = set_running true (set_delayCompensation 0 (set_lastTime now (this g))) /\
  timers g' = timers g ++ [0%Z] /\ frameRequests g' = frameRequests g /\
  log g' = log g ++ [TimerSet 0] /\
  onFrameSlot (hookState g') = Some (default target (onFrameSlot (hookState g))) /\
  onDrawFrameSlot (hookState g') =
    Some (default (defaultOnDrawFrame Canvas drawImage) onDrawFrame) /\
  stage_disposeFrame (hookState g') = stage_disposeFrame (hookState g) /\
  stage_buffers (hookState g') = stage_buffers (hookState g) /\
  stage_ops (hookState g') = stage_ops (hookState g) /\
  forall c, (setCanvasDimesions = true -> c <> target) ->
            canvases (hookState g') c = canvases (hookState g) c.
Proof.
  unfold ThinGifler_frames, animateInCanvas. cbn.
  destruct setCanvasDimesions, onDrawFrame as [f|], (onFrameSlot (hookState g)) as [c0|];
    cbn; repeat split; try done;
    intros c Hc; unfold setCanvas; rewrite ?decide_False; auto.
Qed.

Lemma use_keeps_the_target (u : Use Canvas) (g g' : Gifler) (target : nat) :
  step u g = Some g' ->
  onFrameSlot (hookState g) = Some target ->
  onFrameSlot (hookState g') = Some target /\
  forall c, c <> target -> resizes c u = false ->
            canvases (hookState g') c = canvases (hookState g) c.
Proof.
  intros Hstep Hslot. destruct u as [c od sd now| |i|clock]; cbn in Hstep.
  - injection Hstep as <-.
    destruct (frames_stage c od sd now g) as (_ & _ & _ & _ & Hs & _ & _ & _ & _ & Hc).
    rewrite Hs, Hslot. split; [done|]. intros c' Hne Hres. apply Hc. intros ->.
    cbn in Hres. apply bool_decide_eq_false in Hres. congruence.
  - by injection Hstep as <-.
  - destruct (timers g !! i); [|done]. by injection Hstep as <-.
  - change (perform (hookNow g) (PaintFires clock) g = Some g') in Hstep.
    apply perform_hookState in Hstep as [-> | (ref & Href & _ & Hcall)]; [done|].
    unfold onFrameOf in Href. rewrite Hslot in Href. injection Href as <-.
    apply onFrameOver_Some in Hcall as (Hs & _ & Hc).
    rewrite Hs. split; [done|]. intros c Hne _. by apply Hc.
Qed.

(** X16. The canvas is chosen once.  The first frames() call binds the
    animation to its canvas; a later frames() call with another canvas does
    not retarget it: apart from setting its size when asked to, nothing is
    ever done to a canvas other than the first one. *)
Theorem X16_only_the_first_canvas_is_drawn_on
    (us : list (Use Canvas)) (g g' : Gifler) (target other : nat) :
  onFrameSlot (hookState g) = Some target ->
  steps us g = Some g' ->
  other <> target ->
  forallb (fun u => negb (resizes other u)) us = true ->
  onFrameSlot (hookState g') = Some target /\
  canvases (hookState g') other = canvases (hookState g) other.
Proof.
  intros Hslot Hrun Hother. revert g Hslot Hrun.
  induction us as [|u us IH]; intros g Hslot Hrun Hres; cbn [uses] in Hrun.
  - by injection Hrun as <-.
  - cbn in Hres. apply andb_prop in Hres as [Hu Hres]. apply negb_true_iff in Hu.
    destruct (step u g) as [g1|] eqn:Hstep; [|done].
    destruct (use_keeps_the_target u g g1 target Hstep Hslot) as [Hslot1 Hc].
    destruct (IH g1 Hslot1 Hrun Hres) as [Hslot' Hc'].
    split; [done|]. rewrite Hc'. by apply Hc.
Qed.

Lemma onFrameOver_returns (target gifWidth gifHeight : nat) (frame : Frame.t) (i : nat)
    (st : Stage Canvas ImageData) :
  gifWidth <> 0 -> gifHeight <> 0 ->
  length (Frame.pixels frame) <= gifWidth * gifHeight * 4 ->
  is_Some (hookOver target gifWidth gifHeight (Some frame) i st).
Proof.
  intros Hw Hh Hfit. unfold onFrameOver.
  destruct (defaultOnFrame_returns Canvas ImageData clearRect getImageData putImageData
              drawImage (onDrawFrameSlot st) gifWidth gifHeight frame i
              (mkHookState (canvases st target) (stage_disposeFrame st) (stage_buffers st)
                           (stage_ops st)) Hw Hh Hfit) as [s ->].
  eauto.
Qed.

(** X17. frames() replaces the draw callback but not the frame hook: from
    the next render on, a frame is drawn by the callback passed last (by
    drawImage at the frame's offset if none was passed), on the canvas the
    animation is bound to, after the pending disposal has been run on it. *)
Theorem X17_frames_replaces_the_draw_callback
    (target bound : nat)
    (onDrawFrame : option (Canvas -> Frame.t -> BufferCanvas -> nat -> Canvas))
    (setCanvasDimesions : bool) (now : Z) (g : Gifler)
    (frame : Frame.t) (i : nat) (st' : Stage Canvas ImageData) :
  onFrameSlot (hookState g) = Some bound ->
  let g1 := callFrames target onDrawFrame setCanvasDimesions now g in
  let draw := default (defaultOnDrawFrame Canvas drawImage) onDrawFrame in
  hookOver bound (width (this g1)) (height (this g1)) (Some frame) i (hookState g1)
    = Some st' ->
  hookNow g1 = Some (hookOver bound (width (this g1)) (height (this g1))) /\
  exists buffer,
    stage_buffers st' !! i = Some buffer /\
    canvases st' bound =
      draw (disposerEffect Canvas ImageData clearRect putImageData
              (stage_disposeFrame (hookState g)) (canvases (hookState g1) bound))
           frame buffer i.
Proof.
  intros Hslot g1 draw Hcall.
  destruct (frames_stage target onDrawFrame setCanvasDimesions now g)
    as (_ & _ & _ & _ & Hs & Hd & Hdisp & _).
  fold g1 in Hs, Hd, Hdisp. rewrite Hslot in Hs.
  change (onFrameSlot (hookState g1) = Some bound) in Hs. clearbody g1.
  split; [unfold onFrameOf; by rewrite Hs|].
  unfold onFrameOver in Hcall.
  destruct (defaultOnFrame _ _ _ _ _ _ _ _ _ _ _ _) as [s|] eqn:Hhook; [|done].
  injection Hcall as <-. cbn.
  apply defaultOnFrame_Some in Hhook as (buffer & Hb & _ & _ & _ & _ & Hc).
  cbn in Hc. exists buffer. split; [done|].
  unfold setCanvas. rewrite decide_True by done.
  rewrite Hc, Hd, Hdisp. done.
Qed.

(** X18. The constructor and frames() together play a GIF to its end: for
    a decoded GIF with at least one frame and a loop count k > 0, as long as
    the hook installed by frames() returns on every frame (no call on the
    canvas and no draw callback throws), a playback in which no delay is
    negative renders k + 1 passes over the decoded frames and stops. *)
Theorem X18_decoded_gif_plays_to_the_end
    (page : nat -> Canvas) (reader : Reader.t) (g g' : Gifler) (target : nat)
    (onDrawFrame : option (Canvas -> Frame.t -> BufferCanvas -> nat -> Canvas))
    (setCanvasDimesions : bool) (now : Z) (clocks : list (list Z)) :
  new_ThinGifler_in Canvas ImageData page reader = Some g ->
  _frames (this g) <> [] -> Reader.loopCount reader <> 0 ->
  (forall frame j st, frame ∈ _frames (this g) ->
     is_Some (hookOver target (Reader.width reader) (Reader.height reader)
                       (Some frame) j st)) ->
  let g1 := callFrames target onDrawFrame setCanvasDimesions now g in
  playback (hookNow g1) clocks g1 = Some g' ->
  Forall (fun d => (0 <= d)%Z) (computedDelays (log g')) ->
  let k := Reader.loopCount reader in
  let n := length (_frames (this g)) in
  decodeFramesSync reader = Some (_frames (this g)) /\
  renders (log g') = take (length clocks) (passes (S k) n) /\
  (length clocks < S k * n -> running (this g') = true) /\
  (S k * n <= length clocks -> finished k g').
Proof.
  intros Hnew Hne Hk Hreturns g1 Hplay Hdelays k n.
  unfold new_ThinGifler_in in Hnew.
  destruct (decodeFramesSync reader) as [decoded|] eqn:Hdecode; [|done].
  injection Hnew as <-.
  change (_frames (this (create reader decoded (mkStage page None None None ∅ []))))
    with decoded in *.
  split; [done|].
  destruct (frames_stage target onDrawFrame setCanvasDimesions now
              (create reader decoded (mkStage page None None None ∅ [])))
    as (Hthis & Htm & _ & Hlog & Hs & _).
  fold g1 in Hthis, Htm, Hlog, Hs.
  change (timers g1 = [0%Z]) in Htm.
  change (log g1 = [TimerSet 0]) in Hlog.
  change (onFrameSlot (hookState g1) = Some target) in Hs.
  clearbody g1.
  assert (Hhook : hookNow g1 =
                  Some (hookOver target (Reader.width reader) (Reader.height reader))).
  { unfold onFrameOf. by rewrite Hs, Hthis. }
  rewrite Hhook in Hplay.
  destruct (playback_on_time
              (Some (hookOver target (Reader.width reader) (Reader.height reader)))
              (hookOver target (Reader.width reader) (Reader.height reader))
              clocks k 0 0 g1 g' eq_refl) as (Hr & Hon & Hoff);
    try done.
  - intros frame j h Hin. rewrite Hthis in Hin. by apply Hreturns.
  - unfold onPass. rewrite Htm, Hthis. cbn. repeat split; try (done || lia).
    + destruct decoded; [done | cbn; lia].
    + by exists 0%Z.
  - rewrite Hthis, Hlog in Hr. rewrite Hthis in Hon, Hoff.
    split; [exact Hr|]. split; [exact Hon | exact Hoff].
Qed.

(** X13. A GIF whose width or height is 0 never animates: the constructor
    decodes it and frames() starts it, but the first paint callback throws
    in the default hook, at createImageData, before anything is drawn or
    changed.  No buffer is kept, no timeout is set, nothing is left pending,
    and running() stays true. *)
Theorem X13_zero_sized_gif_never_animates
    (page : nat -> Canvas) (reader : Reader.t) (g : Gifler) (target : nat)
    (onDrawFrame : option (Canvas -> Frame.t -> BufferCanvas -> nat -> Canvas))
    (setCanvasDimesions : bool) (now : Z) (clock : list Z) :
  new_ThinGifler_in Canvas ImageData page reader = Some g ->
  Reader.width reader = 0 \/ Reader.height reader = 0 ->
  let g1 := callFrames target onDrawFrame setCanvasDimesions now g in
  exists g2,
    steps [Timeout 0; Paint clock] g1 = Some g2 /\
    running (this g2) = true /\ timers g2 = [] /\ frameRequests g2 = 0 /\
    _frameIndex (this g2) = 0 /\ _loops (this g2) = 0 /\
    hookState g2 = hookState g1 /\ stage_buffers (hookState g2) = ∅ /\
    renders (log g2) = [0] /\ timeouts (log g2) = [0%Z].
Proof.
  intros Hnew Hzero g1.
  unfold new_ThinGifler_in in Hnew.
  destruct (decodeFramesSync reader) as [decoded|] eqn:Hdecode; [|done].
  injection Hnew as <-.
  destruct (frames_stage target onDrawFrame setCanvasDimesions now
              (create reader decoded (mkStage page None None None ∅ [])))
    as (Hthis & Htm1 & Hreq1 & Hlog1 & Hs & _ & _ & Hbuffers & _).
  fold g1 in Hthis, Htm1, Hreq1, Hlog1, Hs, Hbuffers.
  change (timers g1 = [0%Z]) in Htm1.
  change (frameRequests g1 = 0) in Hreq1.
  change (log g1 = [TimerSet 0]) in Hlog1.
  change (onFrameSlot (hookState g1) = Some target) in Hs.
  change (stage_buffers (hookState g1) = ∅) in Hbuffers.
  change (this g1 = set_running true (set_delayCompensation 0 (set_lastTime now
                      (new_Animator reader decoded)))) in Hthis.
  clearbody g1.
  assert (Hhook : forall w, hookState w = hookState g1 -> this w = this g1 ->
                    hookNow w = Some (hookOver target (Reader.width reader)
                                               (Reader.height reader))).
  { intros w Hh Ht. unfold onFrameOf. by rewrite Hh, Hs, Ht, Hthis. }
  assert (Hthrows : forall frame,
            hookOver target (Reader.width reader) (Reader.height reader) frame 0
                     (hookState g1) = None).
  { intros [frame|]; unfold onFrameOver, defaultOnFrame; [|done].
    cbn [buffers]. rewrite Hbuffers, lookup_empty.
    unfold createBufferCanvas.
    by destruct Hzero as [-> | ->]; rewrite ?Nat.eqb_refl, ?orb_true_r. }
  cbn [uses use]. rewrite (Hhook g1 eq_refl eq_refl).
  cbn [perform]. rewrite Htm1. cbn [lookup list_lookup].
  unfold _nextFrame, requestAnimationFrame.
  cbn [frameRequests set_frameRequests emit set_timers]. rewrite Hreq1. cbn [Nat.add].
  rewrite Hhook by done.
  cbn [perform frameRequests set_frameRequests emit set_timers upd].
  rewrite nextFrameRender_running by (cbn; by rewrite Hthis).
  cbn [hookState set_frameRequests emit set_timers this upd].
  rewrite Hthis.
  cbn [_frames _frameIndex set_running set_delayCompensation set_lastTime new_Animator].
  rewrite Hthrows.
  eexists. split; [reflexivity|].
  cbn [this timers frameRequests hookState log emit set_frameRequests set_timers upd
       delete list_delete].
  rewrite Hthis, Hlog1.
  do 6 (split; [done|]). split; [done|]. split; by vm_compute.
Qed.

(** X19. frames() cannot replay an animation whose frame index is out of
    range (the loops are used up, or the GIF has no frames): the one tick it
    starts hands no frame to the hook, which throws; nothing is drawn, no
    callback is left pending, and running() stays true. *)
Theorem X19_frames_cannot_replay_past_the_end
    (target : nat)
    (onDrawFrame : option (Canvas -> Frame.t -> BufferCanvas -> nat -> Canvas))
    (setCanvasDimesions : bool) (now : Z) (clock : list Z) (g : Gifler) :
  _frames (this g) !! _frameIndex (this g) = None ->
  timers g = [] -> frameRequests g = 0 ->
  let g1 := callFrames target onDrawFrame setCanvasDimesions now g in
  exists g2,
    steps [Timeout 0; Paint clock] g1 = Some g2 /\
    running (this g2) = true /\ timers g2 = [] /\ frameRequests g2 = 0 /\
    _frameIndex (this g2) = _frameIndex (this g) /\ _loops (this g2) = _loops (this g) /\
    hookState g2 = hookState g1 /\
    renders (log g2) = renders (log g) ++ [_frameIndex (this g)].
Proof.
  intros Hnone Htm Hreq g1.
  destruct (frames_stage target onDrawFrame setCanvasDimesions now g)
    as (Hthis & Htm1 & Hreq1 & Hlog1 & Hs & _).
  fold g1 in Hthis, Htm1, Hreq1, Hlog1, Hs. rewrite Htm in Htm1. rewrite Hreq in Hreq1.
  change (timers g1 = [0%Z]) in Htm1.
  assert (Hslot : exists bound, onFrameSlot (hookState g1) = Some bound) by eauto.
  clear Hs. destruct Hslot as [bound Hs]. clearbody g1.
  assert (Hhook : forall w, hookState w = hookState g1 -> this w = this g1 ->
                    hookNow w = Some (hookOver bound (width (this g1)) (height (this g1)))).
  { intros w Hh Ht. unfold onFrameOf. by rewrite Hh, Hs, Ht. }
  cbn [uses use]. rewrite (Hhook g1 eq_refl eq_refl).
  cbn [perform]. rewrite Htm1. cbn [lookup list_lookup].
  unfold _nextFrame, requestAnimationFrame.
  cbn [frameRequests set_frameRequests emit set_timers]. rewrite Hreq1. cbn [Nat.add].
  rewrite Hhook by done.
  cbn [perform frameRequests set_frameRequests emit set_timers upd].
  rewrite nextFrameRender_running by (cbn; by rewrite Hthis).
  cbn [hookState set_frameRequests emit set_timers this upd].
  rewrite Hthis.
  cbn [_frames _frameIndex set_running set_delayCompensation set_lastTime].
  rewrite Hnone. unfold onFrameOver at 1. unfold defaultOnFrame at 1.
  eexists. split; [reflexivity|].
  cbn [this timers frameRequests hookState log emit set_frameRequests set_timers upd
       delete list_delete].
  rewrite Hthis, Hlog1.
  do 6 (split; [done|]).
  rewrite !renders_app, <- !app_assoc. f_equal.
Qed.

End ThinGiflerFacts.

(** * Examples for the further properties *)

(** A paint callback that runs 250 ms late: the timeout set for the frame
    it settles on ends when that frame is due. *)
Lemma X1_witness :
  let w0 := create (demoReader 0 3) threeFrames blank in
  let w := default w0 (run (Some paintedHook) [CallStart 0; TimerFires 0] w0) in
  let w' := (_enqueueNextFrame [250; 250; 251]%Z w).1 in
  exists d, timers w' = timers w ++ [d] /\ (_lastTime (this w') + d)%Z = due (this w').
Proof.
  intros w0 w w'.
  destruct (X1_timeout_ends_when_the_frame_is_due w [250; 250; 251]%Z 0)
    as (_ & m & _ & _ & _ & Hsched).
  apply Hsched; by vm_compute.
Defined.

(** Two start()s in a run: at most two callbacks pending at its end. *)
Lemma X2_witness :
  let acts := [CallStart 0; TimerFires 0; PaintFires [0%Z]; CallStart 5; CallStop;
               TimerFires 1] in
  let w := create (demoReader 0 3) threeFrames blank in
  let w' := default w (run (Some paintedHook) acts w) in
  pending w' <= pending w + 2.
Proof.
  intros acts w w'.
  exact (proj1 (X2_pending_callbacks_bounded_by_starts (Some paintedHook) acts w w'
                  ltac:(by vm_compute))).
Defined.

(** One frame, loop count 1: a start() after the animation has finished
    hands the hook no frame; the hook throws and the chain ends. *)
Lemma X3_witness :
  let w0 := start 0 (create (demoReader 1 1) [frame10 0] blank) in
  let w2 := default w0 (playback (Some paintedHook) (onTime 2) w0) in
  let w := default w2 (perform (Some paintedHook) (TimerFires 0) (start 200 w2)) in
  exists w',
    perform (Some paintedHook) (PaintFires [200%Z]) w = Some w' /\
    this w' = this w /\ running (this w') = true /\
    timers w' = timers w /\ frameRequests w' = 0 /\ hookState w' = hookState w /\
    log w' = log w ++ [Rendered (_frameIndex (this w))].
Proof.
  intros w0 w2 w.
  apply (X3_hook_failure_halts_the_chain (Some paintedHook) paintedHook [200%Z] w 0);
    by vm_compute.
Defined.

(** Three frames, loop count 1, a run with a late tick and a reset(). *)
Lemma X4_witness :
  let acts := [CallStart 0; TimerFires 0; PaintFires [0]; TimerFires 0;
               PaintFires [350; 350; 351]; CallReset; TimerFires 0;
               PaintFires [1000; 1000; 1000; 1000; 1000; 1000; 1000]]%Z in
  let w0 := create (demoReader 1 3) threeFrames blank in
  let w := default w0 (run (Some paintedHook) acts w0) in
  _frames (this w) = threeFrames /\ _loopCount (this w) = 1 /\
  (_loopCount (this w) <> 0 -> _loops (this w) <= _loopCount (this w)) /\
  (_frameIndex (this w) < 3 \/
   (_loopCount (this w) <> 0 /\ _loops (this w) = _loopCount (this w))) /\
  (_loopCount (this w) = 0 -> _frameIndex (this w) < 3).
Proof.
  intros acts w0 w.
  apply (X4_position_invariant (Some paintedHook) (demoReader 1 3) threeFrames blank acts w).
  - discriminate.
  - by vm_compute.
Defined.

(** Three frames, loop count 1: after the animation has finished, reset()
    and start() play the six renders again. *)
Lemma X5_witness :
  let w0 := start 0 (create (demoReader 1 3) threeFrames blank) in
  let w := default w0 (playback (Some paintedHook) (onTime 6) w0) in
  let clocks := (fun i => [1000 + Z.of_nat i * 100]%Z) <$> seq 0 6 in
  let w' := default w (playback (Some paintedHook) clocks (start 1000 (upd reset w))) in
  renders (log w') = [0; 1; 2; 0; 1; 2; 0; 1; 2; 0; 1; 2] /\ finished 1 w'.
Proof.
  intros w0 w clocks w'.
  destruct (X5_reset_and_start_replay_a_finished_animation
              (Some paintedHook) paintedHook 1 1000 clocks w w' eq_refl) as (Hr & _ & Hend).
  - apply paintedHook_returns. vm_compute. repeat constructor.
  - discriminate.
  - by vm_compute.
  - by vm_compute.
  - by vm_compute.
  - vm_compute. repeat constructor; discriminate.
  - split; [exact Hr | apply Hend; vm_compute; lia].
Defined.

(** A reset() after two renders: the next render is frame 0. *)
Lemma X6_witness :
  let w0 := create (demoReader 0 3) threeFrames blank in
  let w := default w0 (run (Some paintedHook)
                           [CallStart 0; TimerFires 0; PaintFires [0%Z]; TimerFires 0;
                            PaintFires [100%Z]] w0) in
  let w2 := default w (playback (Some paintedHook) [[200%Z]] (upd reset w)) in
  renders (log w2) = [0; 1; 0].
Proof.
  intros w0 w w2.
  apply (X6_reset_while_running_shows_frame_0 (Some paintedHook) w w2 [200%Z]);
    by vm_compute.
Defined.

(** stop() and reset() before any start(). *)
Lemma X7_witness :
  let w0 := create (demoReader 0 3) threeFrames blank in
  let w := default w0 (run (Some paintedHook) [CallStop; CallReset; CallStop] w0) in
  running (this w) = false /\ renders (log w) = [] /\ timeouts (log w) = [] /\
  hookState w = blank /\ timers w = [] /\ frameRequests w = 0.
Proof.
  intros w0 w.
  apply (X7_nothing_before_start (Some paintedHook) (demoReader 0 3) threeFrames blank
           [CallStop; CallReset; CallStop] w); by vm_compute.
Defined.

(** The frames of the example reader fit its 1 x 1 image data. *)
Lemma X8_witness :
  exists buffer,
    createBufferCanvas (frame10 0) 1 1 = Some buffer /\
    imageData_data buffer = [0; 0; 0; 255]%Z /\
    buffer_width buffer = 1 /\ buffer_height buffer = 1.
Proof.
  destruct (X8_decoded_frames_always_fit (demoReader 1 3) threeFrames (frame10 0))
    as (buffer & Hcreate & Hdata & _ & _ & _ & Hw & Hh & _).
  - by vm_compute.
  - apply list_elem_of_here.
  - discriminate.
  - discriminate.
  - exists buffer. split; [exact Hcreate|]. split; [exact Hdata|]. by split.
Defined.

(** The buffer of frame 0 after its first render is the one used by its
    second render. *)
Lemma X9_witness :
  let s1 := default blank (paintedHook (Some (frame10 0)) 0 blank) in
  exists s2, paintedHook (Some (frame10 0)) 0 s1 = Some s2 /\ buffers s2 = buffers s1.
Proof.
  intros s1.
  apply (X9_buffer_built_once (list nat) (list nat)
           (fun _ => []) (fun ctx => ctx) (fun saved _ => saved) (fun _ _ _ ctx => ctx)
           (Some (fun ctx _ _ i => ctx ++ [i])) 1 1 (frame10 0) 0 blank s1).
  by vm_compute.
Defined.

(** A frame with disposal 3 on a canvas that shows frame 7: the next frame
    is drawn over frame 7, not over the frame with disposal 3. *)
Lemma X10_witness :
  let s := mkHookState [7] None ∅ [] in
  let sN := default s (paintedHook (Some (frame10 3)) 0 s) in
  let sM := default s (paintedHook (Some (frame10 0)) 1 sN) in
  canvas sN = [7; 0] /\ canvas sM = [7; 1].
Proof.
  intros s sN sM.
  destruct (X10_restore_previous_round_trip (list nat) (list nat)
              (fun _ => []) (fun ctx => ctx) (fun saved _ => saved) (fun _ _ _ ctx => ctx)
              (Some (fun ctx _ _ i => ctx ++ [i])) 1 1 (frame10 3) (frame10 0) 0 1 s sN sM)
    as (bN & bM & HN & HM); [done..|].
  split; [exact HN | exact HM].
Defined.

(** A reader that throws on the metadata of its second frame. *)
Lemma X11_witness :
  let reader := Reader.mk 1 1 3 0
                  (fun i => if bool_decide (i = 1)%Z then None else Some (frame10 0))
                  (fun _ _ => Some []) in
  decodeFramesSync reader = None /\ new_ThinGifler reader = None.
Proof.
  intros reader. apply (X11_one_bad_frame_fails_the_decoding reader 1).
  - by vm_compute.
  - left. by vm_compute.
Defined.

(** A reader that reports -2 frames is asked for the frames 0 and -1. *)
Lemma X12_witness :
  let reader := Reader.mk 1 1 (-2) 0 (fun _ => Some (frame10 0)) (fun _ _ => Some []) in
  decodeFramesSync reader = mapM (decodeFrame reader) [0; -1]%Z.
Proof.
  intros reader.
  exact (proj1 (X12_frame_count_zero_or_negative reader ltac:(by vm_compute))).
Defined.

(** One frame of delay 0, loop count 0, and a clock that has moved on by
    1 ms: the loop uses up every reading it is given. *)
Lemma X14_witness :
  let w := start 0 (create (demoReader 0 1) [frame0] blank) in
  exists w', _enqueueNextFrame [1; 1; 1; 1; 2]%Z w = (w', Starved) /\ timers w' = timers w /\
             length (log w') = length (log w) + 5.
Proof.
  intros w.
  destruct (X14_zero_delays_behind_schedule_never_catch_up [1; 1; 1; 1; 2]%Z w)
    as (w' & Henq & Htm & Hlog & _).
  - discriminate.
  - reflexivity.
  - repeat constructor. cbn. lia.
  - reflexivity.
  - repeat constructor; cbn; lia.
  - by exists w'.
Defined.

(** Three frames, loop count 0: the first paint callback sets the timeout
    for the second frame. *)
Lemma X15_witness :
  let w0 := create (demoReader 0 3) threeFrames blank in
  let w := default w0 (run (Some paintedHook) [CallStart 0; TimerFires 0] w0) in
  let w' := default w (perform (Some paintedHook) (PaintFires [0%Z]) w) in
  exists d, (0 <= d)%Z /\ timers w' = timers w ++ [d] /\
            _running (this w') = true /\
            _frameIndex (this w') < length (_frames (this w')).
Proof.
  intros w0 w w'.
  apply (X15_loop_count_zero_always_schedules_the_next_tick (Some paintedHook) [0%Z] w w').
  - discriminate.
  - reflexivity.
  - reflexivity.
  - intros ref [= <-]. vm_compute. eauto.
  - by vm_compute.
Defined.

(** frames() on canvas 0 and then on canvas 1: both chains draw on
    canvas 0. *)
Lemma X16_witness :
  let g0 := create (demoReader 0 3) threeFrames (mkStage demoPage None None None ∅ []) in
  let g := demoFrames 0 (Some drawIndex) true 0 g0 in
  let us := [Timeout 0; Paint [0%Z]; CallFrames 1 (Some drawIndex) false 50;
             Timeout 0; Paint [100%Z]; Timeout 0; Paint [100%Z]] in
  let g' := default g (demoUses us g) in
  onFrameSlot (hookState g') = Some 0 /\ canvases (hookState g') 1 = [] /\
  canvases (hookState g') 0 = [0; 1; 2].
Proof.
  intros g0 g us g'.
  destruct (X16_only_the_first_canvas_is_drawn_on (list nat) (list nat)
              (fun _ _ _ => []) (fun _ => []) (fun ctx => ctx) (fun saved _ => saved)
              (fun buffer _ _ ctx => ctx ++ [buffer_width buffer]) us g g' 0 1)
    as [Hslot Hother]; [by vm_compute..|].
  split; [exact Hslot|]. split; [|by vm_compute].
  rewrite Hother. by vm_compute.
Defined.

(** frames() with a draw callback on an animation that is already bound to
    canvas 0: the next frame is drawn on canvas 0 by that callback. *)
Lemma X17_witness :
  let g0 := create (demoReader 0 3) threeFrames (mkStage demoPage None None None ∅ []) in
  let g := demoFrames 0 None true 0 g0 in
  let g1 := demoFrames 1 (Some drawIndex) false 50 g in
  let st' := default (hookState g1)
               (default (fun _ _ _ => None) (demoHook g1) (Some (frame10 0)) 2 (hookState g1)) in
  exists buffer,
    stage_buffers st' !! 2 = Some buffer /\ canvases st' 0 = drawIndex [] (frame10 0) buffer 2.
Proof.
  intros g0 g g1 st'.
  destruct (X17_frames_replaces_the_draw_callback (list nat) (list nat)
              (fun _ _ _ => []) (fun _ => []) (fun ctx => ctx) (fun saved _ => saved)
              (fun buffer _ _ ctx => ctx ++ [buffer_width buffer])
              1 0 (Some drawIndex) false 50 g (frame10 0) 2 st')
    as (_ & buffer & Hb & Hc); [by vm_compute..|].
  by exists buffer.
Defined.

(** The example GIF of three frames and loop count 1, played through
    frames() with every paint callback on time: six renders, then the
    animation has stopped. *)
Lemma X18_witness :
  let g := create (demoReader 1 3) threeFrames (mkStage demoPage None None None ∅ []) in
  let g1 := demoFrames 0 (Some drawIndex) true 0 g in
  let g' := default g1 (playback (demoHook g1) (onTime 6) g1) in
  renders (log g') = [0; 1; 2; 0; 1; 2] /\ finished 1 g'.
Proof.
  intros g g1 g'.
  destruct (X18_decoded_gif_plays_to_the_end (list nat) (list nat)
              (fun _ _ _ => []) (fun _ => []) (fun ctx => ctx) (fun saved _ => saved)
              (fun buffer _ _ ctx => ctx ++ [buffer_width buffer])
              demoPage (demoReader 1 3) g g' 0 (Some drawIndex) true 0 (onTime 6))
    as (_ & Hr & _ & Hend).
  - by vm_compute.
  - discriminate.
  - discriminate.
  - intros frame j st Hin. apply onFrameOver_returns; [discriminate..|].
    apply list_elem_of_lookup in Hin as [[|[|[|?]]] [= <-]]; cbn; lia.
  - by vm_compute.
  - vm_compute. repeat constructor; discriminate.
  - split; [exact Hr | apply Hend; vm_compute; lia].
Defined.

(** A GIF of width 0 with one frame: the first paint callback throws and
    nothing is drawn on the canvas. *)
Lemma X13_witness :
  let reader := Reader.mk 0 1 1 0 (fun _ => Some (frame10 0)) (fun _ _ => Some []) in
  let frame := Frame.mk 0 0 1 1 10 0 [] in
  let g := create reader [frame] (mkStage demoPage None None None ∅ []) in
  let g1 := demoFrames 0 None true 0 g in
  exists g2,
    demoUses [Timeout 0; Paint [0%Z]] g1 = Some g2 /\
    running (this g2) = true /\ timers g2 = [] /\ frameRequests g2 = 0 /\
    canvases (hookState g2) 0 = [] /\ renders (log g2) = [0].
Proof.
  intros reader frame g g1.
  destruct (X13_zero_sized_gif_never_animates (list nat) (list nat)
              (fun _ _ _ => []) (fun _ => []) (fun ctx => ctx) (fun saved _ => saved)
              (fun buffer _ _ ctx => ctx ++ [buffer_width buffer])
              demoPage reader g 0 None true 0 [0%Z])
    as (g2 & Hsteps & Hrun & Htm & Hreq & _ & _ & Hstate & _ & Hrenders & _).
  - by vm_compute.
  - by left.
  - exists g2. split; [exact Hsteps|]. split; [exact Hrun|]. split; [exact Htm|].
    split; [exact Hreq|]. split; [|exact Hrenders].
    rewrite Hstate. by vm_compute.
Defined.

(** One frame, loop count 1: a frames() call after the animation has
    finished draws nothing and leaves running() true. *)
Lemma X19_witness :
  let g := create (demoReader 1 1) [frame10 0] (mkStage demoPage None None None ∅ []) in
  let g1 := demoFrames 0 (Some drawIndex) true 0 g in
  let g2 := default g1 (playback (demoHook g1) (onTime 2) g1) in
  let g3 := demoFrames 0 (Some drawIndex) false 200 g2 in
  exists g4,
    demoUses [Timeout 0; Paint [200%Z]] g3 = Some g4 /\
    running (this g4) = true /\ timers g4 = [] /\ frameRequests g4 = 0 /\
    _frameIndex (this g4) = 1 /\ _loops (this g4) = 1 /\
    hookState g4 = hookState g3 /\
    renders (log g4) = [0; 0; 1].
Proof.
  intros g g1 g2 g3.
  apply (X19_frames_cannot_replay_past_the_end (list nat) (list nat)
           (fun _ _ _ => []) (fun _ => []) (fun ctx => ctx) (fun saved _ => saved)
           (fun buffer _ _ ctx => ctx ++ [buffer_width buffer])
           0 (Some drawIndex) false 200 [200%Z] g2); by vm_compute.
Defined.
